(** * A shallow embedding of src/sparlo-benchmark/benchmark.py

    The benchmark CLI runs a problem through two backends (the polling
    Sparlo API and the synchronous Claude API), appends one row per
    problem to results.csv, and later judges the completed rows.

    Modelling choices (all follow the Python source):
    - JSON values returned by the backends and by the judge are [json];
      a Python dict parsed from JSON is an association list in insertion
      order (keys are unique in the dicts that occur).  Floats are not
      modelled: numbers are integers.
    - An in-memory CSV row (a [dict] produced by [csv.DictReader] and then
      mutated) is a [gmap string json]; a row on disk is the list of its
      45 cell strings, in the order of [CSV_COLUMNS].  Reading and writing
      the CSV text itself (quoting) is taken to be lossless.
    - Wall-clock time is a natural number of time units measured from the
      start of the call; the backends decide how long each request takes.
    - Python exceptions are the [Err] case of [result].  Console output
      ([click.echo]) is recorded only in the poll loop, where the spec
      speak about it. *)

From stdpp Require Import base list gmap strings pretty.
From Stdlib Require Import Ascii Recdef.

Open Scope string_scope.
Local Set Warnings "-missing-scheme,-register-all,-abstract-large-number,-funind-cannot-define-graph,-funind-cannot-build-inversion".

(** ** Python values and exceptions *)

Inductive json : Type :=
| JNull
| JBool (b : bool)
| JInt (z : Z)
| JStr (s : string)
| JArr (l : list json)
| JObj (kvs : list (string * json)).

(** A raised Python exception: its class name and [str(e)]. *)
Record exn := Exn { exn_type : string; exn_msg : string }.

Inductive result (A : Type) : Type :=
| Ok (a : A)
| Err (e : exn).
Arguments Ok {A} a.
Arguments Err {A} e.

Definition rbind {A B} (m : result A) (f : A -> result B) : result B :=
  match m with Ok a => f a | Err e => Err e end.

Notation "'let*' x ':=' m 'in' k" := (rbind m (fun x => k))
  (at level 200, x name, m at level 100, k at level 200).

(** [try: body except Exception as e: handler(e)] *)
Definition try_except {A} (body : result A) (handler : exn -> result A) : result A :=
  match body with Ok a => Ok a | Err e => handler e end.

(** Python's [str.join] with separator [sep]. *)
Fixpoint join (sep : string) (l : list string) : string :=
  match l with
  | [] => ""
  | [x] => x
  | x :: l' => x +:+ sep +:+ join sep l'
  end.

(** [str(x)] and [repr(x)] of a JSON value (escaping of quotes inside
    strings is not modelled). *)
Fixpoint py_repr (v : json) : string :=
  match v with
  | JNull => "None"
  | JBool true => "True"
  | JBool false => "False"
  | JInt z => pretty z
  | JStr s => "'" +:+ s +:+ "'"
  | JArr l => "[" +:+ join ", " (map py_repr l) +:+ "]"
  | JObj kvs =>
      "{" +:+ join ", " (map (fun kv => "'" +:+ kv.1 +:+ "': " +:+ py_repr kv.2) kvs) +:+ "}"
  end.

Definition py_str (v : json) : string :=
  match v with
  | JStr s => s
  | _ => py_repr v
  end.

Definition py_type (v : json) : string :=
  match v with
  | JNull => "NoneType" | JBool _ => "bool" | JInt _ => "int" | JStr _ => "str"
  | JArr _ => "list" | JObj _ => "dict"
  end.

(** Truth value of a JSON value. *)
Definition truthy (v : json) : bool :=
  match v with
  | JNull => false
  | JBool b => b
  | JInt z => negb (Z.eqb z 0)
  | JStr s => negb (String.eqb s "")
  | JArr l => negb (Nat.eqb (length l) 0)
  | JObj kvs => negb (Nat.eqb (length kvs) 0)
  end.

Fixpoint assoc (k : string) (kvs : list (string * json)) : option json :=
  match kvs with
  | [] => None
  | (k', v) :: kvs' => if String.eqb k k' then Some v else assoc k kvs'
  end.

(** [d[k]] on a value parsed from JSON. *)
Definition getitem (d : json) (k : string) : result json :=
  match d with
  | JObj kvs =>
      match assoc k kvs with
      | Some v => Ok v
      | None => Err (Exn "KeyError" ("'" +:+ k +:+ "'"))
      end
  | _ => Err (Exn "TypeError" (py_type d +:+ " indices must be integers"))
  end.

(** [d.get(k, default)]: only dicts have [get]. *)
Definition dict_get (d : json) (k : string) (dflt : json) : result json :=
  match d with
  | JObj kvs => Ok (match assoc k kvs with Some v => v | None => dflt end)
  | _ => Err (Exn "AttributeError" ("'" +:+ py_type d +:+ "' object has no attribute 'get'"))
  end.

(** ** The Claude call ([run_claude], lines 225-240) *)

(** What the content list of an Anthropic message holds. *)
Inductive block : Type :=
| TextBlock (text : string)
| ToolUseBlock (input : json).

(** How the synchronous backend behaves on one [messages.create] call:
    it raises (network error, non-success status, ...) or returns a
    message; either way it takes [elapsed] time units. *)
Record claude_behaviour := {
  cb_elapsed : nat;
  cb_reply : result (list block)
}.

Definition block_text (b : block) : result string :=
  match b with
  | TextBlock t => Ok t
  | ToolUseBlock _ => Err (Exn "AttributeError" "'ToolUseBlock' object has no attribute 'text'")
  end.

(** [response.content[0].text] *)
Definition first_text (content : list block) : result string :=
  match content with
  | b :: _ => block_text b
  | [] => Err (Exn "IndexError" "list index out of range")
  end.

(** Returns [(output, status, duration)].  The client object is built
    outside the [try]; building it does not contact the backend. *)
Definition run_claude (beh : claude_behaviour) : result (string * string * nat) :=
  try_except
    (let* content := cb_reply beh in
     let* t := first_text content in
     Ok (t, "complete", cb_elapsed beh))
    (fun e => Ok (exn_msg e, "error", cb_elapsed beh)).

(** ** The Sparlo call ([run_sparlo], lines 146-222) *)

(** One HTTP exchange as [requests] reports it: the call raises
    (connection error, read timeout, ...) or yields a response with a
    status code, its text, and its body parsed as JSON ([None] when
    [resp.json()] would raise). *)
Inductive http : Type :=
| HttpRaise (e : exn)
| HttpResp (code : Z) (text : string) (body : option json).

(** The asynchronous backend: the create request, and the [k]-th status
    request; each comes with the time it takes. *)
Record sparlo_behaviour := {
  sb_post : nat * http;
  sb_poll : nat -> nat * http
}.

(** What the caller can observe besides the return value: each status
    request with the time it is issued, console lines, saved files. *)
Inductive event : Type :=
| EPoll (at_time : nat)
| ELog (line : string)
| ESave (file : string).

(** [(output, status, duration, full_json)] *)
Definition sparlo_out : Type := string * string * nat * json.

Definition is_str (v : json) (s : string) : bool :=
  match v with JStr s' => String.eqb s' s | _ => false end.

Definition JSONDecodeError : exn := Exn "JSONDecodeError" "Expecting value: line 1 column 1 (char 0)".

Definition budget : nat := 2100.
Definition poll_interval : nat := 30.

(** The body of the loop once a 200 response with JSON [data] arrived at
    time [t]: [Some r] returns from [run_sparlo], [None] continues. *)
Definition poll_answer (pid : option string) (data : json) (t : nat)
  : list event * option (result sparlo_out) :=
  match dict_get data "status" JNull, dict_get data "currentStep" (JStr "unknown"),
        dict_get data "phaseProgress" (JInt 0) with
  | Ok status, Ok step, Ok progress =>
      let line := ELog ("  Sparlo: " +:+ py_str status +:+ " - " +:+ py_str step
                        +:+ " (" +:+ py_str progress +:+ "%)") in
      if is_str status "complete" then
        match dict_get data "reportData" (JObj []) with
        | Ok report_data =>
            let output :=
              match report_data with
              | JObj kvs => py_str (match assoc "report" kvs with Some v => v | None => report_data end)
              | _ => py_str report_data
              end in
            let saved :=
              match pid with
              | Some p => let f := "reports/" +:+ p +:+ "_sparlo.json" in
                          [ESave f; ELog ("  Saved full report to " +:+ f)]
              | None => []
              end in
            (line :: saved, Some (Ok (output, "complete", t, report_data)))
        | Err e => ([line], Some (Err e))
        end
      else if is_str status "error" then ([line], Some (Ok ("", "error", t, JObj [])))
      else ([line], None)
  | Err e, _, _ | _, Err e, _ | _, _, Err e => ([], Some (Err e))
  end.

(** [while time.time() - start < 2100: time.sleep(30); ...]; [now] is the
    time elapsed since [start], [k] counts the status requests, [acc] is
    the trace so far. *)
Function poll_loop (poll : nat -> nat * http) (pid : option string)
  (now k : nat) (acc : list event) {measure (fun n => budget - n) now}
  : list event * result sparlo_out :=
  if Nat.ltb now budget then
    let t := now + poll_interval in
    match poll k with
    | (d, HttpRaise e) => (app acc [EPoll t], Err e)
    | (d, HttpResp code _ body) =>
        if negb (Z.eqb code 200) then
          poll_loop poll pid (t + d) (S k)
            (app acc [EPoll t; ELog ("  ERROR: Failed to get status: " +:+ pretty code)])
        else
          match body with
          | None => (app acc [EPoll t], Err JSONDecodeError)
          | Some data =>
              match poll_answer pid data (t + d) with
              | (evs, Some r) => (app acc (EPoll t :: evs), r)
              | (evs, None) => poll_loop poll pid (t + d) (S k) (app acc (EPoll t :: evs))
              end
          end
    end
  else (acc, Ok ("", "timeout", now, JObj [])).
Proof.
  all: intros; apply Nat.ltb_lt in teq; unfold budget, poll_interval in *; lia.
Defined.

(** [run_sparlo(problem_text, problem_id)]; [api_key] is
    [BENCHMARK_API_KEY]. *)
Definition run_sparlo (api_key : option string) (pid : option string)
  (beh : sparlo_behaviour) : list event * result sparlo_out :=
  match api_key with
  | None | Some "" => ([ELog "  ERROR: BENCHMARK_API_KEY not set in .env"], Ok ("", "error", 0, JObj []))
  | Some _ =>
      let '(d, reply) := sb_post beh in
      match reply with
      | HttpRaise e => ([], Err e)
      | HttpResp code text body =>
          if negb (Z.eqb code 200) then
            ([ELog ("  ERROR: Failed to create report: " +:+ pretty code +:+ " - "
                    +:+ String.substring 0 200 text)], Ok ("", "error", d, JObj []))
          else
            match body with
            | None => ([], Err JSONDecodeError)
            | Some data =>
                match getitem data "reportId" with
                | Err e => ([], Err e)
                | Ok rid => poll_loop (sb_poll beh) pid d 0 [ELog ("  Sparlo report created: " +:+ py_str rid)]
                end
            end
      end
  end.

(** ** The ledger: results.csv *)

Definition CSV_COLUMNS : list string := [
  "problem_id"; "created_at"; "problem_text"; "segment"; "problem_summary";
  "prior_art"; "domain_spec"; "contradiction"; "sweetspot_pred"; "expected_grade";
  "sparlo_output"; "claude_output"; "sparlo_status"; "claude_status";
  "sparlo_time_sec"; "claude_time_sec";
  "sparlo_understanding"; "sparlo_novelty"; "sparlo_relevance";
  "sparlo_credibility"; "sparlo_actionability"; "sparlo_citations"; "sparlo_total";
  "claude_understanding"; "claude_novelty"; "claude_relevance";
  "claude_credibility"; "claude_actionability"; "claude_citations"; "claude_total";
  "winner"; "score_margin"; "sparlo_strengths"; "claude_strengths";
  "key_insight"; "cross_domain_sparlo"; "cross_domain_claude";
  "cross_domain_list_sparlo"; "cross_domain_list_claude";
  "would_pay"; "would_pay_rationale"; "verdict_summary"; "scoring_rationale";
  "notes"; "evaluated"].

(** The columns written by the judging step (all but [evaluated]). *)
Definition JUDGING_COLUMNS : list string := [
  "sparlo_understanding"; "sparlo_novelty"; "sparlo_relevance";
  "sparlo_credibility"; "sparlo_actionability"; "sparlo_citations"; "sparlo_total";
  "claude_understanding"; "claude_novelty"; "claude_relevance";
  "claude_credibility"; "claude_actionability"; "claude_citations"; "claude_total";
  "winner"; "score_margin"; "sparlo_strengths"; "claude_strengths";
  "key_insight"; "cross_domain_sparlo"; "cross_domain_claude";
  "cross_domain_list_sparlo"; "cross_domain_list_claude";
  "would_pay"; "would_pay_rationale"; "verdict_summary"; "scoring_rationale";
  "notes"].

(** A row as stored: its cells in column order. *)
Abbreviation disk_row := (list string).

(** A row in memory, as [csv.DictReader] yields it and the code mutates it. *)
Abbreviation mem_row := (gmap string json).

(** The cell of column [c] of a stored row. *)
Fixpoint cell_go (ks vs : list string) (c : string) : option string :=
  match ks, vs with
  | k :: ks', v :: vs' => if String.eqb c k then Some v else cell_go ks' vs' c
  | _, _ => None
  end.

Definition cell (r : disk_row) (c : string) : option string := cell_go CSV_COLUMNS r c.

(** [csv.DictReader]: the header zipped with the cells. *)
Definition read_row (r : disk_row) : mem_row :=
  list_to_map (zip CSV_COLUMNS (map JStr r)).

(** What [csv.writer] puts in a cell: [None] becomes the empty string,
    anything else its [str]. *)
Definition csv_cell (v : json) : string :=
  match v with JNull => "" | _ => py_str v end.

(** [csv.DictWriter(fieldnames=CSV_COLUMNS).writerow(row)]: missing keys
    are written as the empty string ([restval='']). *)
Definition write_row (row : mem_row) : disk_row :=
  map (fun c => match row !! c with Some v => csv_cell v | None => "" end) CSV_COLUMNS.

(** ** The [generate] command (lines 332-411) *)

Record gen_args := {
  ga_problem : string; ga_segment : string; ga_summary : string;
  ga_prior_art : string; ga_domain : string; ga_contradiction : string;
  ga_sweetspot : Z; ga_expected : string
}.

(** The row dict built at lines 386-404. *)
Definition gen_row (a : gen_args) (pid created_at : string)
  (sparlo_out sparlo_status : string) (sparlo_time : nat)
  (claude_out claude_status : string) (claude_time : nat) : mem_row :=
  list_to_map [
    ("problem_id", JStr pid); ("created_at", JStr created_at);
    ("problem_text", JStr (ga_problem a)); ("segment", JStr (ga_segment a));
    ("problem_summary", JStr (ga_summary a)); ("prior_art", JStr (ga_prior_art a));
    ("domain_spec", JStr (ga_domain a)); ("contradiction", JStr (ga_contradiction a));
    ("sweetspot_pred", JInt (ga_sweetspot a)); ("expected_grade", JStr (ga_expected a));
    ("sparlo_output", JStr sparlo_out); ("claude_output", JStr claude_out);
    ("sparlo_status", JStr sparlo_status); ("claude_status", JStr claude_status);
    ("sparlo_time_sec", JInt (Z.of_nat sparlo_time)); ("claude_time_sec", JInt (Z.of_nat claude_time));
    ("evaluated", JStr "false")].

(** [generate]: [pid] is the fresh [uuid4], [created_at] the timestamp;
    the result is the ledger after the append, or the exception that
    ended the command (the ledger file is then untouched).  The JSON side
    files in reports/ are not part of the ledger and are not modelled. *)
Definition generate (a : gen_args) (pid created_at : string) (api_key : option string)
  (sb : sparlo_behaviour) (cb : claude_behaviour) (ledger : list disk_row)
  : result (list disk_row) :=
  let* so := (run_sparlo api_key (Some pid) sb).2 in
  let '(sparlo_out, sparlo_status, sparlo_time, _) := so in
  let* co := run_claude cb in
  let '(claude_out, claude_status, claude_time) := co in
  Ok (app ledger [write_row (gen_row a pid created_at sparlo_out sparlo_status sparlo_time
                              claude_out claude_status claude_time)]).

(** ** The judge call ([evaluate_outputs], lines 243-323) *)

(** What the judge prompt is built from: problem text, the seven metadata
    values and both outputs cut to 50,000 characters. *)
Record judge_input := {
  ji_problem : string;
  ji_metadata : list string;
  ji_sparlo : string;
  ji_claude : string
}.

(** The judge backend: the reply to the [n]-th judge call of a run
    (an API exception, or the content blocks of the message). *)
Definition judge_behaviour : Type := nat -> judge_input -> result (list block).

Fixpoint first_tool_use (content : list block) : option json :=
  match content with
  | [] => None
  | ToolUseBlock input :: _ => Some input
  | _ :: content' => first_tool_use content'
  end.

Definition NoToolResponse : exn := Exn "ValueError" "No evaluation tool response received".

Definition evaluate_outputs (judge : judge_behaviour) (n : nat) (inp : judge_input) : result json :=
  let* content := judge n inp in
  match first_tool_use content with
  | Some input => Ok input
  | None => Err NoToolResponse
  end.

(** ** Python helpers used by the merge *)

Definition map_ascii (f : ascii -> ascii) : string -> string :=
  fix go s := match s with EmptyString => EmptyString | String a s' => String (f a) (go s') end.

Definition ascii_lower (a : ascii) : ascii :=
  let n := nat_of_ascii a in if Nat.leb 65 n && Nat.leb n 90 then ascii_of_nat (n + 32) else a.
Definition ascii_upper (a : ascii) : ascii :=
  let n := nat_of_ascii a in if Nat.leb 97 n && Nat.leb n 122 then ascii_of_nat (n - 32) else a.

(** [str.lower] and [str.upper] (ASCII letters). *)
Definition str_lower : string -> string := map_ascii ascii_lower.
Definition py_upper (v : json) : result string :=
  match v with
  | JStr s => Ok (map_ascii ascii_upper s)
  | _ => Err (Exn "AttributeError" ("'" +:+ py_type v +:+ "' object has no attribute 'upper'"))
  end.

Fixpoint chars (s : string) : list string :=
  match s with EmptyString => [] | String a s' => String a EmptyString :: chars s' end.

Fixpoint str_items (l : list json) : result (list string) :=
  match l with
  | [] => Ok []
  | JStr s :: l' => let* ss := str_items l' in Ok (s :: ss)
  | v :: _ => Err (Exn "TypeError" ("sequence item: expected str instance, " +:+ py_type v +:+ " found"))
  end.

(** [', '.join(v)]: a list of strings, the characters of a string, or
    the keys of a dict. *)
Definition join_iter (v : json) : result string :=
  match v with
  | JArr l => let* ss := str_items l in Ok (join ", " ss)
  | JStr s => Ok (join ", " (chars s))
  | JObj kvs => Ok (join ", " (map fst kvs))
  | _ => Err (Exn "TypeError" "can only join an iterable")
  end.

(** [d.values()] *)
Definition values_of (d : json) : result (list json) :=
  match d with
  | JObj kvs => Ok (map snd kvs)
  | _ => Err (Exn "AttributeError" ("'" +:+ py_type d +:+ "' object has no attribute 'values'"))
  end.

(** [sum(l)]: starts from the int 0; bools count as 0 and 1. *)
Fixpoint py_sum (l : list json) : result Z :=
  match l with
  | [] => Ok 0%Z
  | JInt z :: l' => let* s := py_sum l' in Ok (z + s)%Z
  | JBool b :: l' => let* s := py_sum l' in Ok ((if b then 1 else 0) + s)%Z
  | v :: _ => Err (Exn "TypeError" ("unsupported operand type(s) for +: 'int' and '" +:+ py_type v +:+ "'"))
  end.

(** [int(v)]; it is only applied to values that [sum] produced. *)
Definition py_int (v : json) : result Z :=
  match v with
  | JInt z => Ok z
  | JBool b => Ok (if b then 1 else 0)%Z
  | _ => Err (Exn "TypeError" ("int() argument must be a string or a number, not '" +:+ py_type v +:+ "'"))
  end.

(** [s[:n]] *)
Definition slice_str (n : nat) (v : json) : result string :=
  match v with
  | JStr s => Ok (String.substring 0 n s)
  | _ => Err (Exn "TypeError" ("'" +:+ py_type v +:+ "' object is not subscriptable"))
  end.

Definition nl : string := String (ascii_of_nat 10) EmptyString.

(** ** Mutating one row in place: a state and exception monad *)

(** A computation on the row dict being merged into; an exception stops
    it and keeps the writes already done (the dict is shared with the
    list that is written back to the file). *)
Definition M (A : Type) : Type := mem_row -> result A * mem_row.

Global Instance M_ret : MRet M := fun A a s => (Ok a, s).
Global Instance M_bind : MBind M := fun A B f m s =>
  match m s with
  | (Ok a, s') => f a s'
  | (Err e, s') => (Err e, s')
  end.

Definition st_lift {A} (r : result A) : M A := fun s => (r, s).

(** [row[k]] *)
Definition st_get (k : string) : M json := fun s =>
  match s !! k with
  | Some v => (Ok v, s)
  | None => (Err (Exn "KeyError" ("'" +:+ k +:+ "'")), s)
  end.

(** [row[k] = v] *)
Definition st_set (k : string) (v : json) : M unit := fun s => (Ok tt, <[k:=v]> s).

(** [row[k] = <expression>]: the expression is evaluated first. *)
Definition assign (k : string) (r : result json) : M unit :=
  v ← st_lift r; st_set k v.

(** ** Merging a verdict into a row (lines 455-523) *)

(** One dimension of the composed rationale (lines 492-508). *)
Definition dim_section (title key : string) (sparlo claude rationale : json) : result string :=
  let* s := getitem sparlo key in
  let* c := getitem claude key in
  let* r := dict_get rationale key (JStr "N/A") in
  Ok (title +:+ " (Sparlo: " +:+ py_str s +:+ ", Claude: " +:+ py_str c +:+ ")" +:+ nl
      +:+ py_str r).

(** The f-string [full_rationale] (lines 490-519). *)
Definition full_rationale (res sparlo claude rationale : json) : M string :=
  u ← st_lift (dim_section "Understanding" "understanding" sparlo claude rationale);
  n ← st_lift (dim_section "Novelty" "novelty" sparlo claude rationale);
  r ← st_lift (dim_section "Relevance" "relevance" sparlo claude rationale);
  c ← st_lift (dim_section "Credibility" "credibility" sparlo claude rationale);
  a ← st_lift (dim_section "Actionability" "actionability" sparlo claude rationale);
  ci ← st_lift (dim_section "Citations" "citations" sparlo claude rationale);
  cds ← st_lift (getitem res "cross_domain_sparlo");
  ls ← st_lift (let* l := dict_get res "cross_domain_list_sparlo" (JArr []) in join_iter l);
  cdc ← st_lift (getitem res "cross_domain_claude");
  lc ← st_lift (let* l := dict_get res "cross_domain_list_claude" (JArr []) in join_iter l);
  wp ← st_lift (getitem res "would_pay_for_sparlo");
  wpr ← st_lift (dict_get res "would_pay_rationale" (JStr ""));
  w ← st_lift (let* w := getitem res "winner" in py_upper w);
  m ← st_get "score_margin";
  mi ← st_lift (py_int m);
  st ← st_get "sparlo_total";
  ct ← st_get "claude_total";
  vs ← st_lift (dict_get res "verdict_summary" (JStr ""));
  mret ("SCORING RATIONALE" +:+ nl +:+ nl
    +:+ u +:+ nl +:+ nl +:+ n +:+ nl +:+ nl +:+ r +:+ nl +:+ nl
    +:+ c +:+ nl +:+ nl +:+ a +:+ nl +:+ nl +:+ ci +:+ nl +:+ nl
    +:+ "Cross-Domain Count" +:+ nl
    +:+ "Sparlo (" +:+ py_str cds +:+ "): " +:+ ls +:+ nl
    +:+ "Claude (" +:+ py_str cdc +:+ "): " +:+ lc +:+ nl +:+ nl
    +:+ "Would Pay $50+?" +:+ nl
    +:+ "Sparlo: " +:+ (if truthy wp then "YES" else "NO") +:+ ". " +:+ py_str wpr +:+ nl +:+ nl
    +:+ "Verdict" +:+ nl
    +:+ w +:+ " wins by " +:+ pretty (Z.abs mi) +:+ " points (Sparlo: " +:+ py_str st
    +:+ ", Claude: " +:+ py_str ct +:+ ")." +:+ nl
    +:+ py_str vs).

(** Lines 456-522: every judging column, in the order the code assigns them. *)
Definition merge_fields (res : json) : M unit :=
  sparlo ← st_lift (getitem res "sparlo_scores");
  claude ← st_lift (getitem res "claude_scores");
  assign "sparlo_understanding" (getitem sparlo "understanding");;
  assign "sparlo_novelty" (getitem sparlo "novelty");;
  assign "sparlo_relevance" (getitem sparlo "relevance");;
  assign "sparlo_credibility" (getitem sparlo "credibility");;
  assign "sparlo_actionability" (getitem sparlo "actionability");;
  assign "sparlo_citations" (getitem sparlo "citations");;
  assign "sparlo_total" (let* vs := values_of sparlo in let* z := py_sum vs in Ok (JInt z));;
  assign "claude_understanding" (getitem claude "understanding");;
  assign "claude_novelty" (getitem claude "novelty");;
  assign "claude_relevance" (getitem claude "relevance");;
  assign "claude_credibility" (getitem claude "credibility");;
  assign "claude_actionability" (getitem claude "actionability");;
  assign "claude_citations" (getitem claude "citations");;
  assign "claude_total" (let* vs := values_of claude in let* z := py_sum vs in Ok (JInt z));;
  assign "winner" (getitem res "winner");;
  st ← st_get "sparlo_total";
  ct ← st_get "claude_total";
  assign "score_margin" (let* a := py_int st in let* b := py_int ct in Ok (JInt (a - b)%Z));;
  assign "sparlo_strengths" (getitem res "sparlo_strengths");;
  assign "claude_strengths" (getitem res "claude_strengths");;
  assign "key_insight" (getitem res "key_insight");;
  assign "cross_domain_sparlo" (getitem res "cross_domain_sparlo");;
  assign "cross_domain_claude" (getitem res "cross_domain_claude");;
  assign "cross_domain_list_sparlo"
    (let* l := dict_get res "cross_domain_list_sparlo" (JArr []) in let* s := join_iter l in Ok (JStr s));;
  assign "cross_domain_list_claude"
    (let* l := dict_get res "cross_domain_list_claude" (JArr []) in let* s := join_iter l in Ok (JStr s));;
  assign "would_pay" (let* v := getitem res "would_pay_for_sparlo" in Ok (JStr (str_lower (py_str v))));;
  assign "would_pay_rationale" (dict_get res "would_pay_rationale" (JStr ""));;
  assign "verdict_summary" (dict_get res "verdict_summary" (JStr ""));;
  rationale ← st_lift (dict_get res "scoring_rationale" (JObj []));
  full ← full_rationale res sparlo claude rationale;
  st_set "scoring_rationale" (JStr full);;
  assign "notes" (dict_get res "notes" (JStr "")).

(** Lines 455-523, ending with [row['evaluated'] = 'true']. *)
Definition merge_row (res : json) : M unit :=
  merge_fields res;; st_set "evaluated" (JStr "true").

(** The [try] block of lines 447-529 for one row; [meta] is the metadata
    dict built before it. *)
Definition judge_row (judge : judge_behaviour) (n : nat) (meta : list json) : M unit :=
  pt ← st_get "problem_text";
  so ← st_get "sparlo_output";
  co ← st_get "claude_output";
  inp ← st_lift (let* s := slice_str 50000 so in
                 let* c := slice_str 50000 co in
                 Ok {| ji_problem := py_str pt; ji_metadata := map py_str meta;
                       ji_sparlo := s; ji_claude := c |});
  res ← st_lift (evaluate_outputs judge n inp);
  merge_row res.

(** [try ... except Exception: continue]: the boolean says whether the
    block completed; on an exception the row keeps whatever the block
    had written. *)
Definition process_row (judge : judge_behaviour) (n : nat) (meta : list json) (row : mem_row)
  : mem_row * bool :=
  match judge_row judge n meta row with
  | (Ok _, row') => (row', true)
  | (Err _, row') => (row', false)
  end.

(** ** The [evaluate] command (lines 414-535) *)

Definition is_str_opt (o : option json) (s : string) : bool :=
  match o with Some v => is_str v s | None => false end.

(** The filter of lines 424-426. *)
Definition eligible (r : mem_row) : bool :=
  is_str_opt (r !! "evaluated") "false"
  && is_str_opt (r !! "sparlo_status") "complete"
  && is_str_opt (r !! "claude_status") "complete".

(** Lines 435-445, before the [try]: [row['problem_id'][:8]] for the
    progress line and the metadata dict. *)
Definition row_meta (row : mem_row) : result (list json) :=
  let get k := match row !! k with Some v => Ok v | None => Err (Exn "KeyError" ("'" +:+ k +:+ "'")) end in
  let* pid := get "problem_id" in
  let* _ := slice_str 8 pid in
  let* a := get "segment" in let* b := get "problem_summary" in
  let* c := get "prior_art" in let* d := get "domain_spec" in
  let* e := get "contradiction" in let* f := get "sweetspot_pred" in
  let* g := get "expected_grade" in
  Ok [a; b; c; d; e; f; g].

(** The [for] loop of lines 434-529.  [to_evaluate] holds the very dicts
    that [rows] holds, so the rows are a store indexed by position
    ([heap]) and [to_evaluate] is a list of positions into it; [n] counts
    the judge calls.  The trace says, per judged position, whether its
    [try] block completed. *)
Fixpoint eval_loop (judge : judge_behaviour) (n : nat) (todo : list nat) (heap : list mem_row)
  : result (list (nat * bool) * list mem_row) :=
  match todo with
  | [] => Ok ([], heap)
  | i :: todo' =>
      match heap !! i with
      | None => eval_loop judge n todo' heap   (* unreachable: positions come from [heap] *)
      | Some row =>
          let* meta := row_meta row in
          let '(row', ok) := process_row judge n meta row in
          let* rest := eval_loop judge (S n) todo' (<[i:=row']> heap) in
          Ok ((i, ok) :: rest.1, rest.2)
      end
  end.

(** Lines 424-426: the positions of the eligible rows, in ledger order. *)
Definition to_evaluate (heap : list mem_row) : list nat :=
  List.filter (fun i => match heap !! i with Some r => eligible r | None => false end)
    (seq 0 (length heap)).

(** [evaluate]: the trace of judged rows, and the new file contents, or
    [None] when the file is not written (line 430). *)
Definition evaluate (judge : judge_behaviour) (ledger : list disk_row)
  : result (list (nat * bool) * option (list disk_row)) :=
  let heap := map read_row ledger in
  match to_evaluate heap with
  | [] => Ok ([], None)
  | _ :: _ =>
      let* out := eval_loop judge 0 (to_evaluate heap) heap in
      Ok (out.1, Some (map write_row out.2))
  end.

(** ** The [status] command (lines 548-569) *)

Definition is_complete (r : mem_row) : bool :=
  is_str_opt (r !! "sparlo_status") "complete" && is_str_opt (r !! "claude_status") "complete".

Definition is_evaluated (r : mem_row) : bool := is_str_opt (r !! "evaluated") "true".

Definition has_winner (w : string) (r : mem_row) : bool := is_str_opt (r !! "winner") w.

Definition NO_RESULTS : string := "No results.csv found. Run 'benchmark generate' first.".

(** The lines [status] echoes; [None] is a missing results.csv.  The
    counts are Python ints, so [complete - evaluated] may be negative. *)
Definition status_lines (file : option (list disk_row)) : list string :=
  match file with
  | None => [NO_RESULTS]
  | Some ledger =>
      let rows := map read_row ledger in
      let total := length rows in
      let complete := length (List.filter is_complete rows) in
      let evaluated := length (List.filter is_evaluated rows) in
      let sparlo_wins := length (List.filter (has_winner "Sparlo") rows) in
      let claude_wins := length (List.filter (has_winner "Claude") rows) in
      app ["Total problems: " +:+ pretty total;
           "Complete (both APIs): " +:+ pretty complete;
           "Evaluated: " +:+ pretty evaluated;
           "Pending evaluation: " +:+ pretty (Z.of_nat complete - Z.of_nat evaluated)%Z]
        (if Nat.ltb 0 evaluated then
           [nl +:+ "Results: Sparlo " +:+ pretty sparlo_wins +:+ " | Claude " +:+ pretty claude_wins
               +:+ " | Ties " +:+ pretty (Z.of_nat evaluated - Z.of_nat sparlo_wins - Z.of_nat claude_wins)%Z]
         else [])
  end.

(** [init_csv] (lines 137-143): a missing results.csv is created with the
    header only, which [csv.DictReader] reads as no rows. *)
Definition init_csv (file : option (list disk_row)) : option (list disk_row) :=
  match file with None => Some [] | Some ledger => Some ledger end.

(** [benchmark status]: the group callback [cli] (lines 326-329) runs
    [init_csv] before the command. *)
Definition cli_status (file : option (list disk_row)) : list string :=
  status_lines (init_csv file).


(** * Properties *)

(** ** Reading and writing rows *)

Lemma cell_go_lookup (ks vs : list string) (c : string) :
  (list_to_map (zip ks (map JStr vs)) : mem_row) !! c = JStr <$> cell_go ks vs c.
Proof.
  revert vs; induction ks as [|k ks IH]; intros [|v vs]; simpl; try done.
  destruct (String.eqb_spec c k) as [->|Hne].
  - by rewrite lookup_insert_eq.
  - rewrite lookup_insert_ne by congruence. apply IH.
Qed.

Lemma read_row_lookup (r : disk_row) (c : string) :
  read_row r !! c = JStr <$> cell r c.
Proof. apply cell_go_lookup. Qed.

Lemma cell_go_map (ks : list string) (f : string -> string) (c : string) :
  In c ks -> cell_go ks (map f ks) c = Some (f c).
Proof.
  induction ks as [|k ks IH]; simpl; [done|].
  intros Hin. destruct (String.eqb_spec c k) as [->|Hne]; [done|].
  apply IH. destruct Hin; [congruence|done].
Qed.

Lemma cell_go_self (ks vs : list string) :
  NoDup ks -> length vs = length ks ->
  map (fun c => match cell_go ks vs c with Some v => v | None => "" end) ks = vs.
Proof.
  revert vs; induction ks as [|k ks IH]; intros [|v vs] Hnd Hlen; simpl in *; try done.
  inversion Hnd as [|? ? Hk Hnd']; subst.
  rewrite String.eqb_refl. f_equal.
  etransitivity; [|apply (IH vs Hnd'); lia]. apply map_ext_in. intros c Hc.
  destruct (String.eqb_spec c k) as [->|]; [|done].
  exfalso. apply Hk. by apply list_elem_of_In.
Qed.

Lemma CSV_COLUMNS_NoDup : NoDup CSV_COLUMNS.
Proof. apply (bool_decide_unpack _). vm_compute. reflexivity. Qed.

(** A row the program wrote has one cell per column; reading it back and
    writing it again gives the same cells. *)
Lemma write_read_row (r : disk_row) :
  length r = length CSV_COLUMNS -> write_row (read_row r) = r.
Proof.
  intros Hlen. unfold write_row.
  etransitivity; [|apply (cell_go_self CSV_COLUMNS r CSV_COLUMNS_NoDup Hlen)].
  apply map_ext. intros c. rewrite read_row_lookup. unfold cell.
  by destruct (cell_go CSV_COLUMNS r c).
Qed.

Lemma read_write_lookup (row : mem_row) (c : string) (s : string) :
  In c CSV_COLUMNS -> row !! c = Some (JStr s) -> read_row (write_row row) !! c = Some (JStr s).
Proof.
  intros Hin Hc. rewrite read_row_lookup. unfold cell, write_row.
  rewrite cell_go_map by done. by rewrite Hc.
Qed.

Lemma length_write_row (row : mem_row) : length (write_row row) = length CSV_COLUMNS.
Proof. unfold write_row. apply length_map. Qed.

(** ** Which columns a row computation writes *)

Definition writes {A} (P : string -> bool) (m : M A) : Prop :=
  forall s k, P k = false -> (m s).2 !! k = s !! k.

Lemma writes_ret {A} P (a : A) : writes P (mret a).
Proof. by intros s k _. Qed.

Lemma writes_lift {A} P (r : result A) : writes P (st_lift r).
Proof. by intros s k _. Qed.

Lemma writes_get P k : writes P (st_get k).
Proof. intros s k' _. unfold st_get. by destruct (s !! k). Qed.

Lemma writes_set P k v : P k = true -> writes P (st_set k v).
Proof.
  intros Hk s k' Hk'. unfold st_set; simpl.
  rewrite lookup_insert_ne; [done|]. congruence.
Qed.

Lemma writes_bind {A B} P (m : M A) (f : A -> M B) :
  writes P m -> (forall a, writes P (f a)) -> writes P (m ≫= f).
Proof.
  intros Hm Hf s k Hk. unfold mbind, M_bind.
  specialize (Hm s k Hk). destruct (m s) as [[a|e] s'] eqn:E; simpl in *.
  - rewrite Hf by done. done.
  - done.
Qed.

Lemma writes_assign P k r : P k = true -> writes P (assign k r).
Proof. intros Hk. apply writes_bind; [apply writes_lift|]. intros v. by apply writes_set. Qed.

Ltac writes_tac :=
  repeat first
    [ apply writes_bind; [ | intro ]
    | apply writes_assign; reflexivity
    | apply writes_set; reflexivity
    | apply writes_lift
    | apply writes_get
    | apply writes_ret ].

Definition is_judging (k : string) : bool := existsb (String.eqb k) JUDGING_COLUMNS.

Lemma is_judging_evaluated : is_judging "evaluated" = false.
Proof. reflexivity. Qed.

Lemma merge_fields_writes (res : json) : writes is_judging (merge_fields res).
Proof. unfold merge_fields, full_rationale. writes_tac. Qed.

(** The judging step either ends with [evaluated] set to ['true'], or
    raises and leaves [evaluated] as it was. *)
Definition commits {A} (m : M A) : Prop :=
  forall s, match m s with
            | (Ok _, s') => s' !! "evaluated" = Some (JStr "true")
            | (Err _, s') => s' !! "evaluated" = s !! "evaluated"
            end.

Lemma commits_bind_pre {A B} P (m : M A) (f : A -> M B) :
  writes P m -> P "evaluated" = false -> (forall a, commits (f a)) -> commits (m ≫= f).
Proof.
  intros Hm HP Hf s. unfold mbind, M_bind.
  pose proof (Hm s "evaluated" HP) as Hev.
  destruct (m s) as [[a|e] s'] eqn:E; simpl in *; [|done].
  specialize (Hf a s'). destruct (f a s') as [[b|e] s''] eqn:E'; congruence.
Qed.

Lemma commits_set : commits (st_set "evaluated" (JStr "true")).
Proof. intros s. unfold st_set. by rewrite lookup_insert_eq. Qed.

Lemma merge_row_commits (res : json) : commits (merge_row res).
Proof.
  unfold merge_row. eapply commits_bind_pre; [apply merge_fields_writes|reflexivity|].
  intros _. apply commits_set.
Qed.

Definition is_judging_or_flag (k : string) : bool := is_judging k || String.eqb k "evaluated".

Lemma merge_row_writes (res : json) : writes is_judging_or_flag (merge_row res).
Proof.
  unfold merge_row. apply writes_bind.
  - intros s k Hk. apply merge_fields_writes. unfold is_judging_or_flag in Hk.
    by apply orb_false_iff in Hk as [? _].
  - intros _. by apply writes_set.
Qed.

Lemma judge_row_writes judge n meta : writes is_judging_or_flag (judge_row judge n meta).
Proof.
  unfold judge_row.
  do 5 (apply writes_bind; [first [apply writes_get | apply writes_lift] | intro]).
  apply merge_row_writes.
Qed.

Lemma judge_row_commits judge n meta : commits (judge_row judge n meta).
Proof.
  unfold judge_row.
  do 5 (eapply (commits_bind_pre is_judging);
        [first [apply writes_get | apply writes_lift] | reflexivity | intro]).
  apply merge_row_commits.
Qed.

(** One row's [try] block only writes the judging columns and
    [evaluated], and [evaluated] becomes ['true'] exactly when the block
    completes. *)
Lemma process_row_spec judge n meta row row' ok :
  process_row judge n meta row = (row', ok) ->
  (forall k, is_judging_or_flag k = false -> row' !! k = row !! k) /\
  row' !! "evaluated" = (if ok then Some (JStr "true") else row !! "evaluated").
Proof.
  unfold process_row. intros H.
  pose proof (judge_row_writes judge n meta row) as Hw.
  pose proof (judge_row_commits judge n meta row) as Hc.
  destruct (judge_row judge n meta row) as [[u|e] r'] eqn:E; simpl in *;
    injection H as <- <-; split; auto.
Qed.

(** ** The judging loop *)

Lemma eval_loop_spec judge n (todo : list nat) (heap : list mem_row) tr heap' :
  List.NoDup todo -> (forall i, In i todo -> i < length heap) ->
  eval_loop judge n todo heap = Ok (tr, heap') ->
  map fst tr = todo /\ length heap' = length heap /\
  (forall j, ~ In j todo -> heap' !! j = heap !! j) /\
  (forall j b, In (j, b) tr -> exists r r', heap !! j = Some r /\ heap' !! j = Some r' /\
      (forall k, is_judging_or_flag k = false -> r' !! k = r !! k) /\
      r' !! "evaluated" = (if b then Some (JStr "true") else r !! "evaluated")).
Proof.
  revert n heap tr heap'.
  induction todo as [|i todo IH]; intros n heap tr heap' Hnd Hlt H; simpl in H.
  - injection H as <- <-. simpl. repeat split; try done; by intros ? ? [].
  - inversion Hnd as [|? ? Hi Hnd']; subst.
    destruct (lookup_lt_is_Some_2 heap i) as [row Hrow]; [apply Hlt; now left|].
    rewrite Hrow in H.
    destruct (row_meta row) as [meta|e]; simpl in H; [|discriminate].
    destruct (process_row judge n meta row) as [row' ok] eqn:Ep.
    destruct (eval_loop judge (S n) todo (<[i:=row']> heap)) as [[tr'' heap'']|e] eqn:Er;
      simpl in H; [|discriminate].
    injection H as <- <-.
    destruct (IH (S n) (<[i:=row']> heap) tr'' heap'' Hnd') as (Hfst & Hlen & Hfr & Htr).
    { intros j Hj. rewrite length_insert. apply Hlt. now right. }
    { exact Er. }
    assert (Hil : i < length heap) by (apply Hlt; now left).
    simpl. rewrite Hfst. repeat split.
    + by rewrite Hlen, length_insert.
    + intros j Hj. rewrite Hfr by (intros ?; apply Hj; now right).
      rewrite list_lookup_insert_ne; [done|]. intros ->. apply Hj. now left.
    + intros j b [Heq|Hin].
      * injection Heq as <- <-. exists row, row'.
        destruct (process_row_spec _ _ _ _ _ _ Ep) as [Hk Hev].
        repeat split; try done.
        rewrite Hfr by done. by apply list_lookup_insert_eq.
      * destruct (Htr j b Hin) as (r & r' & Hr & Hr' & Hk & Hev).
        assert (Hj : In j todo).
        { rewrite <- Hfst. apply (in_map fst) in Hin. exact Hin. }
        exists r, r'. repeat split; try done.
        rewrite list_lookup_insert_ne in Hr; [done|]. intros ->. contradiction.
Qed.

Lemma to_evaluate_NoDup (heap : list mem_row) : List.NoDup (to_evaluate heap).
Proof. unfold to_evaluate. apply List.NoDup_filter, seq_NoDup. Qed.

Lemma to_evaluate_In (heap : list mem_row) i :
  In i (to_evaluate heap) <-> i < length heap /\ exists r, heap !! i = Some r /\ eligible r = true.
Proof.
  unfold to_evaluate. rewrite filter_In, in_seq. split.
  - intros [[_ Hi] He]. split; [lia|].
    destruct (heap !! i) as [r|] eqn:E; [by exists r|discriminate].
  - intros [Hi (r & Hr & He)]. rewrite Hr. split; [lia|done].
Qed.

(** ** Eligibility read off the stored cells *)

Definition opt_is (o : option string) (s : string) : bool :=
  match o with Some x => String.eqb x s | None => false end.

(** The eligibility of section 3 of the spec, on a stored row: evaluated
    is 'false' and both backend statuses are 'complete'. *)
Definition eligible_cells (r : disk_row) : bool :=
  opt_is (cell r "evaluated") "false"
  && opt_is (cell r "sparlo_status") "complete"
  && opt_is (cell r "claude_status") "complete".

Lemma eligible_read_row (r : disk_row) : eligible (read_row r) = eligible_cells r.
Proof.
  unfold eligible, eligible_cells. rewrite !read_row_lookup.
  by destruct (cell r "evaluated"), (cell r "sparlo_status"), (cell r "claude_status").
Qed.

Definition selected (ledger : list disk_row) : list nat :=
  List.filter (fun i => match ledger !! i with Some r => eligible_cells r | None => false end)
    (seq 0 (length ledger)).

Lemma to_evaluate_read (ledger : list disk_row) :
  to_evaluate (map read_row ledger) = selected ledger.
Proof.
  unfold to_evaluate, selected. rewrite length_map. apply filter_ext. intros i.
  rewrite list_lookup_fmap. destruct (ledger !! i); simpl; [apply eligible_read_row|done].
Qed.

Lemma filter_false {A} (f : A -> bool) (l : list A) :
  (forall x, In x l -> f x = false) -> List.filter f l = [].
Proof.
  induction l as [|x l IH]; simpl; intros H; [done|].
  rewrite H by now left. apply IH. intros y Hy. apply H. now right.
Qed.

(** Unfolding [evaluate] once the selection is known to be non-empty. *)
Lemma evaluate_run judge (ledger : list disk_row) tr out :
  evaluate judge ledger = Ok (tr, out) ->
  (selected ledger = [] /\ tr = [] /\ out = None) \/
  (selected ledger <> [] /\ exists heap',
     eval_loop judge 0 (selected ledger) (map read_row ledger) = Ok (tr, heap') /\
     out = Some (map write_row heap')).
Proof.
  unfold evaluate. rewrite to_evaluate_read.
  destruct (selected ledger) as [|i rest] eqn:Es; intros H.
  - injection H as <- <-. by left.
  - right. split; [done|]. rewrite <- Es in H |- *.
    destruct (eval_loop judge 0 (selected ledger) (map read_row ledger)) as [[tr' h']|e];
      simpl in H; [|discriminate].
    injection H as <- <-. by exists h'.
Qed.

Lemma selected_spec (ledger : list disk_row) i :
  In i (selected ledger) <-> exists r, ledger !! i = Some r /\ eligible_cells r = true.
Proof.
  rewrite <- to_evaluate_read, to_evaluate_In, length_map. split.
  - intros [_ (r & Hr & He)]. rewrite list_lookup_fmap in Hr.
    destruct (ledger !! i) as [r0|] eqn:E; simpl in Hr; [|discriminate].
    injection Hr as <-. exists r0. by rewrite <- eligible_read_row.
  - intros (r & Hr & He). split; [by eapply lookup_lt_Some|].
    exists (read_row r). rewrite list_lookup_fmap, Hr. by rewrite eligible_read_row.
Qed.

Lemma selected_NoDup (ledger : list disk_row) : List.NoDup (selected ledger).
Proof. rewrite <- to_evaluate_read. apply to_evaluate_NoDup. Qed.

Lemma selected_lt (ledger : list disk_row) i : In i (selected ledger) -> i < length (map read_row ledger).
Proof. rewrite length_map. intros (r & Hr & _)%selected_spec. by eapply lookup_lt_Some. Qed.

(** ** Claims about [evaluate] *)

(** C7: [evaluate] judges exactly the rows whose statuses are both
    'complete' and whose [evaluated] is 'false', in ledger order, and
    every other (well-formed) row is written back with all its cells
    unchanged. *)
Theorem evaluate_frame judge (ledger : list disk_row) tr out :
  evaluate judge ledger = Ok (tr, out) ->
  map fst tr = selected ledger /\
  (forall new, out = Some new ->
     length new = length ledger /\
     forall i r, ledger !! i = Some r -> length r = length CSV_COLUMNS ->
       eligible_cells r = false -> new !! i = Some r).
Proof.
  intros H. destruct (evaluate_run _ _ _ _ H) as [(Hs & -> & ->)|(Hs & heap' & Hl & ->)].
  - by rewrite Hs.
  - destruct (eval_loop_spec _ _ _ _ _ _ (selected_NoDup ledger) (selected_lt ledger) Hl)
      as (Hfst & Hlen & Hfr & _).
    split; [done|]. intros new Hnew. injection Hnew as <-. split.
    + by rewrite length_map, Hlen, length_map.
    + intros i r Hr Hwf He.
      rewrite list_lookup_fmap, Hfr.
      * by rewrite list_lookup_fmap, Hr; simpl; rewrite write_read_row.
      * intros (r' & Hr' & He')%selected_spec. congruence.
Qed.

(** C10: with no eligible row, [evaluate] makes no judge call and does not
    write the file. *)
Theorem evaluate_noop judge (ledger : list disk_row) :
  Forall (fun r => eligible_cells r = false) ledger ->
  evaluate judge ledger = Ok ([], None).
Proof.
  intros Hall. unfold evaluate. rewrite to_evaluate_read.
  replace (selected ledger) with (@nil nat); [done|].
  symmetry. unfold selected. apply filter_false. intros i _.
  destruct (ledger !! i) as [r|] eqn:E; [|done].
  rewrite Forall_lookup in Hall. by apply (Hall i).
Qed.

Lemma filter_filter_and {A} (f g : A -> bool) (l : list A) :
  List.filter f (List.filter g l) = List.filter (fun x => g x && f x) l.
Proof.
  induction l as [|x l IH]; simpl; [done|].
  destruct (g x); simpl; [destruct (f x); simpl; by rewrite IH | done].
Qed.

Lemma filter_map_fst {A B} (f : A -> bool) (g : A * B -> bool) (l : list (A * B)) :
  (forall p, In p l -> f p.1 = g p) ->
  List.filter f (map fst l) = map fst (List.filter g l).
Proof.
  induction l as [|p l IH]; simpl; intros H; [done|].
  rewrite (H p) by now left. rewrite IH by (intros q Hq; apply H; now right).
  by destruct (g p).
Qed.

Lemma eligible_true (r : mem_row) :
  eligible r = true ->
  r !! "evaluated" = Some (JStr "false") /\ r !! "sparlo_status" = Some (JStr "complete") /\
  r !! "claude_status" = Some (JStr "complete").
Proof.
  unfold eligible, is_str_opt, is_str.
  destruct (r !! "evaluated") as [[| | |s| |]|]; try discriminate;
  destruct (r !! "sparlo_status") as [[| | |s'| |]|]; try (rewrite andb_false_r; discriminate);
  destruct (r !! "claude_status") as [[| | |s''| |]|]; try (rewrite andb_false_r; discriminate);
  rewrite !andb_true_iff, !String.eqb_eq; intros [[-> ->] ->]; done.
Qed.

(** After a judged row is written back, it is eligible again exactly when
    its judging failed. *)
Lemma rejudged_iff (r r' : mem_row) (b : bool) :
  eligible r = true ->
  (forall k, is_judging_or_flag k = false -> r' !! k = r !! k) ->
  r' !! "evaluated" = (if b then Some (JStr "true") else r !! "evaluated") ->
  eligible_cells (write_row r') = negb b.
Proof.
  intros He Hk Hev. destruct (eligible_true r He) as (Hf & Hs & Hc).
  rewrite <- eligible_read_row. unfold eligible.
  rewrite (read_write_lookup r' "sparlo_status" "complete"), (read_write_lookup r' "claude_status" "complete");
    [| vm_compute; tauto | rewrite Hk; [done|reflexivity] | vm_compute; tauto | rewrite Hk; [done|reflexivity]].
  destruct b.
  - rewrite (read_write_lookup r' "evaluated" "true"); [reflexivity| vm_compute; tauto | done].
  - rewrite (read_write_lookup r' "evaluated" "false"); [reflexivity| vm_compute; tauto | congruence].
Qed.

(** C3 (amended): after one [evaluate] run, the next run selects exactly
    the rows whose judging failed in the first run, in ledger order; so
    when every row of the first run was judged successfully, the second
    run makes no judge call and does not write the file. *)
Theorem evaluate_twice judge1 (ledger l1 : list disk_row) tr1 :
  evaluate judge1 ledger = Ok (tr1, Some l1) ->
  Forall (fun r => length r = length CSV_COLUMNS) ledger ->
  selected l1 = map fst (List.filter (fun p => negb p.2) tr1) /\
  (Forall (fun p => p.2 = true) tr1 -> forall judge2, evaluate judge2 l1 = Ok ([], None)).
Proof.
  intros H Hwf.
  destruct (evaluate_run _ _ _ _ H) as [(_ & _ & Habs)|(_ & heap' & Hl & Hout)]; [discriminate|].
  injection Hout as Hl1. subst l1.
  destruct (eval_loop_spec _ _ _ _ _ _ (selected_NoDup ledger) (selected_lt ledger) Hl)
    as (Hfst & Hlen & Hfr & Htr).
  set (e1 := fun i => match map write_row heap' !! i with Some r => eligible_cells r | None => false end).
  assert (HA : forall p, In p tr1 -> e1 p.1 = negb p.2).
  { intros [j b] Hin. destruct (Htr j b Hin) as (r & r' & Hr & Hr' & Hk & Hev).
    assert (Hsel : In j (selected ledger)) by (rewrite <- Hfst; exact (in_map fst _ _ Hin)).
    apply selected_spec in Hsel as (r0 & Hr0 & He0).
    rewrite list_lookup_fmap, Hr0 in Hr. injection Hr as <-.
    unfold e1; cbn [fst]. rewrite list_lookup_fmap, Hr'. simpl.
    apply (rejudged_iff (read_row r0)); [by rewrite eligible_read_row|done|done]. }
  assert (HB : forall j, e1 j = true -> In j (selected ledger)).
  { intros j Hj. destruct (in_dec Nat.eq_dec j (selected ledger)) as [|Hn]; [done|exfalso].
    unfold e1 in Hj; cbv beta in Hj. rewrite list_lookup_fmap, Hfr, list_lookup_fmap in Hj by done.
    destruct (ledger !! j) as [r|] eqn:E; simpl in Hj; [|discriminate].
    rewrite write_read_row in Hj by (rewrite Forall_lookup in Hwf; by apply (Hwf j)).
    apply Hn, selected_spec. by exists r. }
  assert (Hsel1 : selected (map write_row heap') = map fst (List.filter (fun p => negb p.2) tr1)).
  { unfold selected at 1. rewrite length_map, Hlen, length_map.
    fold e1.
    rewrite <- (filter_map_fst e1 (fun p => negb p.2) tr1 HA), Hfst.
    unfold selected. rewrite filter_filter_and. apply filter_ext. intros j.
    destruct (e1 j) eqn:Ej; [|by rewrite andb_false_r].
    apply HB, selected_spec in Ej as (r & Hr & He). by rewrite Hr, He. }
  split; [exact Hsel1|].
  intros Hall judge2. unfold evaluate. rewrite to_evaluate_read.
  replace (selected (map write_row heap')) with (@nil nat); [done|].
  rewrite Hsel1. rewrite filter_false; [done|].
  intros [j b] Hin. rewrite List.Forall_forall in Hall. simpl. specialize (Hall _ Hin). simpl in Hall. by rewrite Hall.
Qed.

(** ** Concrete ledgers and judge replies *)

Definition sample_args : gen_args := {|
  ga_problem := "Keep a sealed enclosure below 40C without fans";
  ga_segment := "PDC"; ga_summary := "passive cooling";
  ga_prior_art := "Medium"; ga_domain := "Cross"; ga_contradiction := "Sharp";
  ga_sweetspot := 4; ga_expected := "B" |}.

(** A row as [generate] stores it when both backends completed. *)
Definition complete_row : disk_row :=
  write_row (gen_row sample_args "5f0c2a1e-0000-4000-8000-000000000001" "2026-01-05T10:00:00"
               "sparlo report" "complete" 1500 "claude report" "complete" 40).

Definition scores (u n r c a ci : Z) : list (string * json) :=
  [("understanding", JInt u); ("novelty", JInt n); ("relevance", JInt r);
   ("credibility", JInt c); ("actionability", JInt a); ("citations", JInt ci)].

Definition rationale_obj : json :=
  JObj (map (fun k => (k, JStr ("why " +:+ k)))
          ["understanding"; "novelty"; "relevance"; "credibility"; "actionability"; "citations"]).

(** A complete verdict; its sparlo and claude scores are those of the
    spec's example, and its winner tag disagrees with the totals. *)
Definition verdict_with (sparlo_scores : list (string * json)) : list (string * json) :=
  [("sparlo_scores", JObj sparlo_scores); ("claude_scores", JObj (scores 5 5 6 5 5 6));
   ("scoring_rationale", rationale_obj); ("winner", JStr "Claude");
   ("sparlo_strengths", JStr "named patents"); ("claude_strengths", JStr "clear layout");
   ("key_insight", JStr "phase-change buffer"); ("cross_domain_sparlo", JInt 2);
   ("cross_domain_claude", JInt 1);
   ("cross_domain_list_sparlo", JArr [JStr "Medical blood warmers"; JStr "Lab hot plates"]);
   ("cross_domain_list_claude", JArr [JStr "Aerospace thermal management"]);
   ("would_pay_for_sparlo", JBool true); ("would_pay_rationale", JStr "saves a week");
   ("verdict_summary", JStr "Sparlo cites concrete prior art.")].

Definition verdict : list (string * json) := verdict_with (scores 6 7 8 7 9 8).

Definition without (ks : list string) (kvs : list (string * json)) : list (string * json) :=
  List.filter (fun kv => negb (existsb (String.eqb kv.1) ks)) kvs.

(** A judge that always answers with the tool call [v]. *)
Definition judge_answers (v : list (string * json)) : judge_behaviour :=
  fun _ _ => Ok [TextBlock "Scoring now."; ToolUseBlock (JObj v)].

(** A judge whose API is unreachable. *)
Definition judge_down : judge_behaviour :=
  fun _ _ => Err (Exn "APIConnectionError" "Connection error.").

(** The spec's example: totals 45 and 32, margin 13, while the judge's
    own winner tag says Claude. *)
Example evaluate_spec_example :
  match evaluate (judge_answers verdict) [complete_row] with
  | Ok ([(0, true)], Some [out]) =>
      cell out "sparlo_total" = Some "45" /\ cell out "claude_total" = Some "32" /\
      cell out "score_margin" = Some "13" /\ cell out "winner" = Some "Claude" /\
      cell out "evaluated" = Some "true"
  | _ => False
  end.
Proof. vm_compute. repeat split. Qed.

(** C1 (code bug): a verdict without [winner] stops the merge after the
    fourteen score cells were written; the row keeps them, stays
    [evaluated = 'false'], and the file is rewritten with it. *)
Theorem partial_judgment_persisted :
  match evaluate (judge_answers (without ["winner"] verdict)) [complete_row] with
  | Ok ([(0, false)], Some [out]) =>
      cell out "evaluated" = Some "false" /\ cell out "sparlo_understanding" = Some "6" /\
      cell out "sparlo_total" = Some "45" /\ cell out "claude_total" = Some "32" /\
      cell out "winner" = Some ""
  | _ => False
  end.
Proof. vm_compute. repeat split. Qed.

(** C3 (counterexample): the judge is down during the first run, so the
    second run, with nothing added in between, calls it again for the
    same row. *)
Theorem evaluate_twice_rejudges :
  match evaluate judge_down [complete_row] with
  | Ok ([(0, false)], Some l1) =>
      match evaluate (judge_answers verdict) l1 with
      | Ok (tr2, _) => tr2 = [(0, true)]
      | Err _ => False
      end
  | _ => False
  end.
Proof. vm_compute. reflexivity. Qed.

(** C6 (code bug): the total is [sum(scores.values())], so a score object
    that also carries its own ["total"] is counted twice. *)
Theorem total_counts_extra_keys :
  match evaluate (judge_answers (verdict_with (scores 6 7 8 7 9 8 ++ [("total", JInt 45)])))
          [complete_row] with
  | Ok ([(0, true)], Some [out]) =>
      map (cell out) ["sparlo_understanding"; "sparlo_novelty"; "sparlo_relevance";
                      "sparlo_credibility"; "sparlo_actionability"; "sparlo_citations"]
        = map Some ["6"; "7"; "8"; "7"; "9"; "8"] /\
      cell out "sparlo_total" = Some "90" /\ cell out "score_margin" = Some "58"
  | _ => False
  end.
Proof. vm_compute. repeat split. Qed.

(** C5 (counterexample): a verdict lacking five of the schema's required
    fields is merged as a success. *)
Theorem missing_required_fields_accepted :
  match evaluate (judge_answers (without ["scoring_rationale"; "cross_domain_list_sparlo";
            "cross_domain_list_claude"; "would_pay_rationale"; "verdict_summary"] verdict))
          [complete_row] with
  | Ok ([(0, true)], Some [out]) =>
      cell out "evaluated" = Some "true" /\ cell out "verdict_summary" = Some "" /\
      cell out "would_pay_rationale" = Some "" /\ cell out "cross_domain_list_sparlo" = Some ""
  | _ => False
  end.
Proof. vm_compute. repeat split. Qed.

(** ** Which verdicts make the merge fail *)

Definition is_err {A} (r : result A) : bool := match r with Err _ => true | Ok _ => false end.

Definition raises {A} (m : M A) : Prop := forall s, is_err (m s).1 = true.

Lemma raises_bind_l {A B} (m : M A) (f : A -> M B) : raises m -> raises (m ≫= f).
Proof.
  intros Hm s. specialize (Hm s). unfold mbind, M_bind.
  destruct (m s) as [[a|e] s']; simpl in *; [discriminate|done].
Qed.

Lemma raises_bind_r {A B} (m : M A) (f : A -> M B) : (forall a, raises (f a)) -> raises (m ≫= f).
Proof.
  intros Hf s. unfold mbind, M_bind.
  destruct (m s) as [[a|e] s']; simpl; [apply Hf|done].
Qed.

Lemma raises_bind_ok {A B} (r : result A) (a : A) (f : A -> M B) :
  r = Ok a -> raises (f a) -> raises (st_lift r ≫= f).
Proof. intros -> Hf s. apply Hf. Qed.

Lemma raises_lift {A} (r : result A) : is_err r = true -> raises (st_lift r).
Proof. by intros H s. Qed.

Lemma raises_assign k r : is_err r = true -> raises (assign k r).
Proof. intros H. apply raises_bind_l, raises_lift, H. Qed.

(** Walk down a chain of binds to the step that raises. *)
Ltac raise_leaf H :=
  first [ apply raises_lift | apply raises_assign ];
  first [ reflexivity | unfold getitem; rewrite H; reflexivity ].

Ltac raise_walk H :=
  first [ apply raises_bind_l; raise_leaf H
        | apply raises_bind_r; intro; raise_walk H ].

(** The verdict fields the merge reads with [result[...]]. *)
Definition SUBSCRIPT_KEYS : list string :=
  ["sparlo_scores"; "claude_scores"; "winner"; "sparlo_strengths"; "claude_strengths";
   "key_insight"; "cross_domain_sparlo"; "cross_domain_claude"; "would_pay_for_sparlo"].

Definition SCORE_KEYS : list string :=
  ["understanding"; "novelty"; "relevance"; "credibility"; "actionability"; "citations"].

(** [v] has no field [k] (or is not an object at all). *)
Definition lacks (v : json) (k : string) : Prop :=
  match v with JObj kvs => assoc k kvs = None | _ => True end.

Lemma merge_row_raises_top (res : json) k :
  In k SUBSCRIPT_KEYS -> lacks res k -> raises (merge_row res).
Proof.
  intros Hk Hl. unfold merge_row. apply raises_bind_l. unfold merge_fields.
  destruct res as [| | | | |kvs]; try (apply raises_bind_l; apply raises_lift; reflexivity).
  simpl in Hl.
  repeat (destruct Hk as [<-|Hk]; [raise_walk Hl|]); destruct Hk.
Qed.

Lemma merge_row_raises_score (res sc : json) side key :
  In side ["sparlo_scores"; "claude_scores"] -> In key SCORE_KEYS ->
  getitem res side = Ok sc -> lacks sc key -> raises (merge_row res).
Proof.
  intros Hs Hk Hsc Hl. unfold merge_row. apply raises_bind_l. unfold merge_fields.
  destruct Hs as [<-|[<-|[]]].
  - apply (raises_bind_ok _ sc); [done|].
    destruct sc as [| | | | |kvs]; try (apply raises_bind_r; intro; raise_walk Hl).
    simpl in Hl. repeat (destruct Hk as [<-|Hk]; [raise_walk Hl|]); destruct Hk.
  - apply raises_bind_r; intro. apply (raises_bind_ok _ sc); [done|].
    destruct sc as [| | | | |kvs]; try raise_walk Hl.
    simpl in Hl. repeat (destruct Hk as [<-|Hk]; [raise_walk Hl|]); destruct Hk.
Qed.

(** When the judge answers [res] and the merge of [res] raises, the row's
    [try] block fails and [evaluated] is left as it was. *)
Lemma process_row_fails judge n meta row (res : json) :
  (forall inp, evaluate_outputs judge n inp = Ok res) -> raises (merge_row res) ->
  (process_row judge n meta row).2 = false /\
  (process_row judge n meta row).1 !! "evaluated" = row !! "evaluated".
Proof.
  intros Hj Hm.
  assert (Hr : raises (judge_row judge n meta)).
  { unfold judge_row. do 4 (apply raises_bind_r; intro).
    apply (raises_bind_ok _ res); [apply Hj|exact Hm]. }
  destruct (process_row judge n meta row) as [row' ok] eqn:E.
  destruct (process_row_spec _ _ _ _ _ _ E) as [_ Hev].
  unfold process_row in E. specialize (Hr row).
  destruct (judge_row judge n meta row) as [[u|e] r'];
    simpl in Hr; [discriminate|]. injection E as <- <-. split; [done|exact Hev].
Qed.

(** ** The poll loop: timing of the status requests *)

Fixpoint poll_times (ev : list event) : list nat :=
  match ev with
  | [] => []
  | EPoll t :: ev' => t :: poll_times ev'
  | _ :: ev' => poll_times ev'
  end.

(** Each request comes at least [poll_interval] after the previous
    check of the clock, and is issued before [budget + poll_interval]. *)
Fixpoint spaced (prev : nat) (ts : list nat) : Prop :=
  match ts with
  | [] => True
  | t :: ts' => prev + poll_interval <= t /\ t < budget + poll_interval /\ spaced t ts'
  end.

(** A status reply that keeps the loop going: a non-200 response, or a
    JSON body whose status is neither [complete] nor [error]. *)
Definition pending_reply (pid : option string) (h : http) : Prop :=
  match h with
  | HttpRaise _ => False
  | HttpResp code _ body =>
      code <> 200%Z \/ exists data, body = Some data /\ forall t, (poll_answer pid data t).2 = None
  end.

Lemma poll_times_app (l1 l2 : list event) : poll_times (app l1 l2) = app (poll_times l1) (poll_times l2).
Proof. induction l1 as [|[]]; simpl; rewrite ?IHl1; done. Qed.

Lemma poll_answer_no_poll pid data t : poll_times (poll_answer pid data t).1 = [].
Proof. unfold poll_answer. repeat (case_match; simpl); done. Qed.

Lemma spaced_mono (p p' : nat) ts : p' <= p -> spaced p ts -> spaced p' ts.
Proof. destruct ts; simpl; [done|]. intros ? (?&?&?). split_and!; [lia|done|done]. Qed.

Lemma spaced_length prev ts :
  spaced prev ts -> ts = [] \/ prev + poll_interval * length ts < budget + poll_interval.
Proof.
  revert prev. induction ts as [|t ts IH]; intros prev; simpl; [by left|].
  intros (H1&H2&H3). right. destruct (IH _ H3) as [->|H]; simpl in *; unfold budget, poll_interval in *; lia.
Qed.

Lemma poll_loop_spaced poll pid : forall m now k acc, budget - now <= m ->
  exists ts, poll_times (poll_loop poll pid now k acc).1 = app (poll_times acc) ts /\ spaced now ts.
Proof.
  induction m as [|m IH]; intros now k acc Hm; rewrite poll_loop_equation;
    destruct (Nat.ltb now budget) eqn:Hlt;
    try (exists []; rewrite app_nil_r; done);
    apply Nat.ltb_lt in Hlt; [unfold budget in *; lia|].
  assert (Hsp : forall ts, spaced (now + poll_interval) ts -> spaced now (now + poll_interval :: ts)).
  { intros ts Hts. simpl. split_and!; [lia|unfold budget, poll_interval in *; lia|done]. }
  destruct (poll k) as [d [e|code text body]]; simpl.
  - exists [now + poll_interval]. rewrite poll_times_app. split; [done|by apply Hsp].
  - destruct (negb (Z.eqb code 200)).
    + destruct (IH (now + poll_interval + d) (S k)
                  (app acc [EPoll (now + poll_interval); ELog ("  ERROR: Failed to get status: " +:+ pretty code)]))
        as (ts & Hts & Hs); [unfold poll_interval in *; lia|].
      exists (now + poll_interval :: ts). rewrite Hts, poll_times_app, <- app_assoc. split; [done|].
      apply Hsp, (spaced_mono (now + poll_interval + d)); [lia|done].
    + destruct body as [data|].
      * destruct (poll_answer pid data (now + poll_interval + d)) as [evs [r|]] eqn:Ha;
          pose proof (poll_answer_no_poll pid data (now + poll_interval + d)) as Hn;
          rewrite Ha in Hn; simpl in Hn.
        -- exists [now + poll_interval]. cbn [fst]. rewrite poll_times_app. cbn [poll_times]. rewrite Hn.
           split; [done|by apply Hsp].
        -- destruct (IH (now + poll_interval + d) (S k) (app acc (EPoll (now + poll_interval) :: evs)))
             as (ts & Hts & Hs); [unfold poll_interval in *; lia|].
           exists (now + poll_interval :: ts). rewrite Hts, poll_times_app. cbn [poll_times]. rewrite Hn.
           split; [by rewrite <- app_assoc|]. apply Hsp, (spaced_mono (now + poll_interval + d)); [lia|done].
      * exists [now + poll_interval]. cbn [fst]. rewrite poll_times_app. split; [done|by apply Hsp].
Qed.

Lemma poll_loop_pending poll pid :
  (forall k, pending_reply pid (poll k).2) ->
  forall m now k acc, budget - now <= m ->
  exists t ev, budget <= t /\ poll_loop poll pid now k acc = (ev, Ok ("", "timeout", t, JObj [])).
Proof.
  intros Hp. induction m as [|m IH]; intros now k acc Hm; rewrite poll_loop_equation;
    destruct (Nat.ltb now budget) eqn:Hlt;
    try (apply Nat.ltb_ge in Hlt; eauto);
    apply Nat.ltb_lt in Hlt; [unfold budget in *; lia|].
  specialize (Hp k). destruct (poll k) as [d [e|code text body]]; simpl in Hp; [done|].
  destruct Hp as [Hc|(data & -> & Hd)].
  - apply Z.eqb_neq in Hc. rewrite Hc. simpl. apply IH. unfold poll_interval in *; lia.
  - destruct (Z.eqb code 200); simpl.
    + specialize (Hd (now + poll_interval + d)).
      destruct (poll_answer pid data (now + poll_interval + d)) as [evs r]. simpl in Hd. subst r.
      apply IH. unfold poll_interval in *; lia.
    + apply IH. unfold poll_interval in *; lia.
Qed.

Lemma run_sparlo_spaced api_key pid beh :
  exists d, spaced d (poll_times (run_sparlo api_key pid beh).1).
Proof.
  unfold run_sparlo.
  destruct api_key as [[|a s]|]; try (exists 0; exact I).
  destruct (sb_post beh) as [d [e|code text [data|]]]; try (exists 0; exact I).
  destruct (negb (Z.eqb code 200)); [exists 0; exact I|].
  destruct (getitem data "reportId") as [rid|e]; [|exists 0; exact I].
  destruct (poll_loop_spaced (sb_poll beh) pid (budget - d) d 0
              [ELog ("  Sparlo report created: " +:+ py_str rid)] (le_n _)) as (ts & Hts & Hs).
  exists d. rewrite Hts. exact Hs. destruct (negb (Z.eqb code 200)); exists 0; exact I.
Qed.

Lemma spaced_at_most_70 d ts : spaced d ts -> length ts <= 70.
Proof.
  intros H. destruct (spaced_length d ts H) as [->|Hl]; [simpl; lia|].
  unfold budget, poll_interval in Hl. lia.
Qed.

(** ** Ledger rows written by [generate] *)

Lemma cell_write_row (row : mem_row) c :
  In c CSV_COLUMNS -> cell (write_row row) c = Some (match row !! c with Some v => csv_cell v | None => "" end).
Proof. intros Hin. unfold cell, write_row. by rewrite cell_go_map. Qed.

(** X1: whenever the Sparlo call returns normally, [generate] appends exactly
    one row: both statuses recorded, [evaluated] false, judging cells blank. *)
Lemma generate_appends a pid created_at api_key sb cb (ledger : list disk_row) so :
  (run_sparlo api_key (Some pid) sb).2 = Ok so ->
  exists row co,
    generate a pid created_at api_key sb cb ledger = Ok (app ledger [row]) /\
    run_claude cb = Ok co /\
    cell row "sparlo_status" = Some so.1.1.2 /\
    cell row "claude_status" = Some co.1.2 /\
    cell row "evaluated" = Some "false" /\
    Forall (fun c => cell row c = Some "") JUDGING_COLUMNS.
Proof.
  intros Hs.
  assert (Hc : exists co, run_claude cb = Ok co).
  { unfold run_claude, try_except.
    destruct (let* content := cb_reply cb in let* t := first_text content in Ok (t, "complete", cb_elapsed cb));
      eauto. }
  destruct Hc as [[[co_out co_status] co_time] Hc].
  destruct so as [[[so_out so_status] so_time] so_json].
  unfold generate. rewrite Hs. cbn [rbind]. rewrite Hc. cbn [rbind].
  eexists _, _. split; [reflexivity|]. split; [reflexivity|].
  split_and!; [vm_compute; reflexivity..|].
  repeat constructor; vm_compute; reflexivity.
Qed.

(** ** Concrete backends *)

(** The Sparlo backend creates the report at once, then answers every
    status request with "processing" after one time unit. *)
Definition slow_beh : sparlo_behaviour := {|
  sb_post := (0, HttpResp 200 "{}" (Some (JObj [("reportId", JStr "r1")])));
  sb_poll := fun _ => (1, HttpResp 200 "{}" (Some (JObj [("status", JStr "processing")])))
|}.

(** A status endpoint that is temporarily unavailable. *)
Definition flaky_poll : nat -> nat * http := fun _ => (5, HttpResp 503 "Service Unavailable" None).

(** The Sparlo backend is unreachable. *)
Definition sparlo_unreachable : sparlo_behaviour := {|
  sb_post := (0, HttpRaise (Exn "ConnectionError" "Connection refused"));
  sb_poll := fun _ => (0, HttpRaise (Exn "ConnectionError" "Connection refused"))
|}.

Definition claude_down : claude_behaviour :=
  {| cb_elapsed := 3; cb_reply := Err (Exn "APIConnectionError" "Connection error.") |}.

Definition claude_ok : claude_behaviour := {| cb_elapsed := 40; cb_reply := Ok [TextBlock "claude report"] |}.

(** A row the judge has already scored. *)
Definition evaluated_row : disk_row :=
  Eval vm_compute in
    match evaluate (judge_answers verdict) [complete_row] with
    | Ok (_, Some [r]) => r
    | _ => []
    end.

(** One run over a judged row and an eligible row. *)
Definition two_rows : list disk_row := [evaluated_row; complete_row].

Definition two_rows_trace : list (nat * bool) :=
  Eval vm_compute in
    match evaluate (judge_answers verdict) two_rows with Ok (tr, _) => tr | Err _ => [] end.

Definition two_rows_after : list disk_row :=
  Eval vm_compute in
    match evaluate (judge_answers verdict) two_rows with Ok (_, Some l) => l | _ => [] end.

(** A verdict without the fields the merge reads with [.get]. *)
Definition sparse_verdict : list (string * json) :=
  without ["scoring_rationale"; "cross_domain_list_sparlo"; "cross_domain_list_claude";
           "would_pay_rationale"; "verdict_summary"] verdict.

Definition sparse_row : disk_row :=
  Eval vm_compute in
    match evaluate (judge_answers sparse_verdict) [complete_row] with
    | Ok (_, Some [r]) => r
    | _ => []
    end.

(** ** Claims about the backend calls *)

(** C9: a non-200 reply to a status request is logged and the loop goes
    on to the next check of the same budget, one interval later. *)
Theorem poll_transient_failure_continues poll pid now k acc d code text body :
  now < budget -> poll k = (d, HttpResp code text body) -> code <> 200%Z ->
  poll_loop poll pid now k acc =
  poll_loop poll pid (now + poll_interval + d) (S k)
    (app acc [EPoll (now + poll_interval); ELog ("  ERROR: Failed to get status: " +:+ pretty code)]).
Proof.
  intros Hlt Hk Hc. rewrite poll_loop_equation.
  apply Nat.ltb_lt in Hlt. rewrite Hlt, Hk.
  apply Z.eqb_neq in Hc. by rewrite Hc.
Qed.

Lemma poll_transient_failure_continues_witness :
  0 < budget /\ flaky_poll 0 = (5, HttpResp 503 "Service Unavailable" None) /\ 503%Z <> 200%Z /\
  poll_loop flaky_poll None 0 0 [] =
  poll_loop flaky_poll None (0 + poll_interval + 5) 1
    [EPoll (0 + poll_interval); ELog ("  ERROR: Failed to get status: " +:+ pretty 503%Z)].
Proof.
  split_and!; [unfold budget; lia | reflexivity | discriminate |].
  apply (poll_transient_failure_continues flaky_poll None 0 0 [] 5 503%Z "Service Unavailable" None);
    [unfold budget; lia | reflexivity | discriminate].
Defined.

(** C4 (counterexample): the clock is checked before the 30-unit sleep,
    so with a backend that stays "processing" the last status request is
    sent at 2107, after the 2100 budget, and the timeout comes at 2108. *)
Theorem poll_after_budget :
  nth_error (run_sparlo (Some "key") (Some "p1") slow_beh).1 135 = Some (EPoll 2107) /\
  (run_sparlo (Some "key") (Some "p1") slow_beh).2 = Ok ("", "timeout", 2108, JObj []) /\
  budget < 2107.
Proof. split_and!; [vm_compute; reflexivity | vm_compute; reflexivity | unfold budget; lia]. Qed.

(** C4 (amended): for every backend, each status request comes at least
    30 units after the previous check of the clock and is sent before
    [budget + 30], so there are at most 70 of them; and if the report is
    created and every status reply keeps the loop going, the call returns
    [timeout] with a duration of at least the budget. *)
Theorem sparlo_poll_bounded :
  (forall api_key pid beh,
     (exists d, spaced d (poll_times (run_sparlo api_key pid beh).1)) /\
     length (poll_times (run_sparlo api_key pid beh).1) <= 70) /\
  (forall key pid beh d text data rid,
     key <> "" -> sb_post beh = (d, HttpResp 200 text (Some data)) ->
     getitem data "reportId" = Ok rid ->
     (forall k, pending_reply pid (sb_poll beh k).2) ->
     exists t, budget <= t /\ (run_sparlo (Some key) pid beh).2 = Ok ("", "timeout", t, JObj [])).
Proof.
  split.
  - intros api_key pid beh. destruct (run_sparlo_spaced api_key pid beh) as [d Hd].
    split; [by exists d|]. exact (spaced_at_most_70 _ _ Hd).
  - intros key pid beh d text data rid Hkey Hpost Hrid Hpend.
    destruct (poll_loop_pending (sb_poll beh) pid Hpend (budget - d) d 0
                [ELog ("  Sparlo report created: " +:+ py_str rid)] (le_n _)) as (t & ev & Ht & Hl).
    exists t. split; [done|].
    unfold run_sparlo. destruct key as [|a s]; [done|].
    rewrite Hpost. cbv beta iota. rewrite Z.eqb_refl. cbv beta iota. simpl negb.
    rewrite Hrid. cbv beta iota. by rewrite Hl.
Qed.

Lemma sparlo_poll_bounded_witness :
  "key" <> "" /\ sb_post slow_beh = (0, HttpResp 200 "{}" (Some (JObj [("reportId", JStr "r1")]))) /\
  getitem (JObj [("reportId", JStr "r1")]) "reportId" = Ok (JStr "r1") /\
  (forall k, pending_reply (Some "p1") (sb_poll slow_beh k).2) /\
  exists t, budget <= t /\ (run_sparlo (Some "key") (Some "p1") slow_beh).2 = Ok ("", "timeout", t, JObj []).
Proof.
  assert (Hp : forall k, pending_reply (Some "p1") (sb_poll slow_beh k).2).
  { intros k. right. eexists. split; [reflexivity|]. intros t. reflexivity. }
  split_and!; [discriminate | reflexivity | reflexivity | exact Hp |].
  apply (proj2 sparlo_poll_bounded "key" (Some "p1") slow_beh 0 "{}" (JObj [("reportId", JStr "r1")]) (JStr "r1"));
    [discriminate | reflexivity | reflexivity | exact Hp].
Defined.

(** C8: [run_claude] never raises: the backend's reply yields
    [(text, "complete", duration)], and any exception raised by the call
    or by reading [content[0].text] yields [(str(e), "error", duration)]. *)
Theorem run_claude_never_raises beh :
  match (let* content := cb_reply beh in first_text content) with
  | Ok t => run_claude beh = Ok (t, "complete", cb_elapsed beh)
  | Err e => run_claude beh = Ok (exn_msg e, "error", cb_elapsed beh)
  end.
Proof.
  unfold run_claude, try_except.
  destruct (cb_reply beh) as [content|e]; cbn [rbind]; [|reflexivity].
  by destruct (first_text content).
Qed.

(** C2 (code bug): when the create request of the Sparlo call raises
    (connection refused, read timeout), the exception leaves [generate]
    and no row is appended; the Claude call is not even made. *)
Theorem generate_drops_submission a pid created_at key d e sb cb (ledger : list disk_row) :
  key <> "" -> sb_post sb = (d, HttpRaise e) ->
  generate a pid created_at (Some key) sb cb ledger = Err e.
Proof.
  intros Hkey Hpost. unfold generate, run_sparlo.
  destruct key as [|c s]; [done|]. by rewrite Hpost.
Qed.

Lemma generate_drops_submission_witness :
  "key" <> "" /\ sb_post sparlo_unreachable = (0, HttpRaise (Exn "ConnectionError" "Connection refused")) /\
  generate sample_args "5f0c2a1e-0000-4000-8000-000000000002" "2026-01-05T11:00:00" (Some "key")
    sparlo_unreachable claude_ok [complete_row] = Err (Exn "ConnectionError" "Connection refused").
Proof.
  split_and!; [discriminate | reflexivity |].
  apply generate_drops_submission with (d := 0); [discriminate | reflexivity].
Defined.

(** ** Claims about the judge call *)

(** C5 (amended): a judge reply without a tool call fails with the
    "no evaluation tool response" error; a verdict lacking a field the
    merge reads with [result[...]] (or a sub-score of either score
    object) makes the row fail, [evaluated] unchanged; but the fields the
    merge reads with [.get] may be missing, and such a verdict succeeds. *)
Theorem judge_failure_cases :
  (forall judge n inp content, judge n inp = Ok content -> first_tool_use content = None ->
     evaluate_outputs judge n inp = Err NoToolResponse) /\
  (forall judge n meta row res k,
     (forall inp, evaluate_outputs judge n inp = Ok res) -> In k SUBSCRIPT_KEYS -> lacks res k ->
     (process_row judge n meta row).2 = false /\
     (process_row judge n meta row).1 !! "evaluated" = row !! "evaluated") /\
  (forall judge n meta row res side sc key,
     (forall inp, evaluate_outputs judge n inp = Ok res) ->
     In side ["sparlo_scores"; "claude_scores"] -> In key SCORE_KEYS ->
     getitem res side = Ok sc -> lacks sc key ->
     (process_row judge n meta row).2 = false /\
     (process_row judge n meta row).1 !! "evaluated" = row !! "evaluated") /\
  evaluate (judge_answers sparse_verdict) [complete_row] = Ok ([(0, true)], Some [sparse_row]).
Proof.
  split_and!.
  - intros judge n inp content Hj Hn. unfold evaluate_outputs. by rewrite Hj; cbn [rbind]; rewrite Hn.
  - intros judge n meta row res k Hj Hk Hl.
    apply (process_row_fails _ _ _ _ res Hj), (merge_row_raises_top res k Hk Hl).
  - intros judge n meta row res side sc key Hj Hs Hk Hsc Hl.
    apply (process_row_fails _ _ _ _ res Hj), (merge_row_raises_score res sc side key Hs Hk Hsc Hl).
  - vm_compute. reflexivity.
Qed.

Definition no_tool_judge : judge_behaviour := fun _ _ => Ok [TextBlock "I cannot score these."].

Lemma judge_failure_cases_witness :
  (no_tool_judge 0 {| ji_problem := "p"; ji_metadata := []; ji_sparlo := "a"; ji_claude := "b" |}
     = Ok [TextBlock "I cannot score these."] /\
   evaluate_outputs no_tool_judge 0 {| ji_problem := "p"; ji_metadata := []; ji_sparlo := "a"; ji_claude := "b" |}
     = Err NoToolResponse) /\
  ((process_row (judge_answers (without ["winner"] verdict)) 0 [] (read_row complete_row)).2 = false) /\
  ((process_row (judge_answers (verdict_with (without ["citations"] (scores 6 7 8 7 9 8)))) 0 []
      (read_row complete_row)).2 = false).
Proof.
  split_and!.
  - reflexivity.
  - apply (proj1 judge_failure_cases no_tool_judge 0 _ [TextBlock "I cannot score these."]); reflexivity.
  - apply (proj1 (proj1 (proj2 judge_failure_cases) (judge_answers (without ["winner"] verdict)) 0 []
             (read_row complete_row) (JObj (without ["winner"] verdict)) "winner"
             (fun _ => eq_refl) ltac:(simpl; tauto) eq_refl)).
  - apply (proj1 (proj1 (proj2 (proj2 judge_failure_cases))
             (judge_answers (verdict_with (without ["citations"] (scores 6 7 8 7 9 8)))) 0 []
             (read_row complete_row) (JObj (verdict_with (without ["citations"] (scores 6 7 8 7 9 8))))
             "sparlo_scores" (JObj (without ["citations"] (scores 6 7 8 7 9 8))) "citations"
             (fun _ => eq_refl) ltac:(simpl; tauto) ltac:(simpl; tauto) eq_refl eq_refl)).
Defined.

(** ** Witnesses of the [evaluate] claims *)

Lemma evaluate_frame_witness :
  evaluate (judge_answers verdict) two_rows = Ok (two_rows_trace, Some two_rows_after) /\
  map fst two_rows_trace = selected two_rows /\
  (forall new, Some two_rows_after = Some new ->
     length new = length two_rows /\
     forall i r, two_rows !! i = Some r -> length r = length CSV_COLUMNS ->
       eligible_cells r = false -> new !! i = Some r).
Proof.
  split; [vm_compute; reflexivity|].
  apply (evaluate_frame (judge_answers verdict) two_rows two_rows_trace (Some two_rows_after)).
  vm_compute. reflexivity.
Defined.

Lemma evaluate_noop_witness :
  Forall (fun r => eligible_cells r = false) [evaluated_row] /\
  evaluate judge_down [evaluated_row] = Ok ([], None).
Proof.
  split.
  - constructor; [vm_compute; reflexivity | constructor].
  - apply evaluate_noop. constructor; [vm_compute; reflexivity | constructor].
Defined.

Lemma evaluate_twice_witness :
  evaluate (judge_answers verdict) two_rows = Ok (two_rows_trace, Some two_rows_after) /\
  Forall (fun r => length r = length CSV_COLUMNS) two_rows /\
  selected two_rows_after = map fst (List.filter (fun p => negb p.2) two_rows_trace) /\
  (Forall (fun p => p.2 = true) two_rows_trace ->
     forall judge2, evaluate judge2 two_rows_after = Ok ([], None)).
Proof.
  assert (Hwf : Forall (fun r => length r = length CSV_COLUMNS) two_rows).
  { repeat constructor. }
  split_and!; [vm_compute; reflexivity | exact Hwf |
    apply (evaluate_twice (judge_answers verdict) two_rows two_rows_after two_rows_trace);
      [vm_compute; reflexivity | exact Hwf]..].
Defined.

(** Both backends fail without raising: the row is still appended. *)
Lemma generate_appends_witness :
  (run_sparlo None (Some "5f0c2a1e-0000-4000-8000-000000000003") sparlo_unreachable).2
    = Ok ("", "error", 0, JObj []) /\
  exists row co,
    generate sample_args "5f0c2a1e-0000-4000-8000-000000000003" "2026-01-05T12:00:00" None
      sparlo_unreachable claude_down [complete_row] = Ok (app [complete_row] [row]) /\
    run_claude claude_down = Ok co /\
    cell row "sparlo_status" = Some "error" /\
    cell row "claude_status" = Some co.1.2 /\
    cell row "evaluated" = Some "false" /\
    Forall (fun c => cell row c = Some "") JUDGING_COLUMNS.
Proof.
  split; [reflexivity|].
  apply (generate_appends sample_args "5f0c2a1e-0000-4000-8000-000000000003" "2026-01-05T12:00:00" None
           sparlo_unreachable claude_down [complete_row] ("", "error", 0, JObj [])).
  reflexivity.
Defined.

(** * Further properties *)

(** ** Inverting a successful row computation *)

Lemma bind_ok_inv {A B} (m : M A) (f : A -> M B) s b s'' :
  (m ≫= f) s = (Ok b, s'') -> exists a s', m s = (Ok a, s') /\ f a s' = (Ok b, s'').
Proof.
  unfold mbind, M_bind. destruct (m s) as [[a|e] s']; intros H; [eauto|discriminate].
Qed.

Lemma lift_ok_inv {A} (r : result A) s a s' : st_lift r s = (Ok a, s') -> r = Ok a /\ s' = s.
Proof. unfold st_lift. intros H. injection H as -> ->. done. Qed.

Lemma set_ok_inv k v s u s' : st_set k v s = (Ok u, s') -> s' = <[k:=v]> s.
Proof. unfold st_set. intros H. by injection H as _ ->. Qed.

Lemma get_ok_inv k s v s' : st_get k s = (Ok v, s') -> s !! k = Some v /\ s' = s.
Proof. unfold st_get. destruct (s !! k); intros H; [injection H as -> ->; done|discriminate]. Qed.

Lemma assign_ok_inv k r s u s' : assign k r s = (Ok u, s') -> exists v, r = Ok v /\ s' = <[k:=v]> s.
Proof.
  unfold assign. intros (v & s1 & H1 & H2)%bind_ok_inv.
  apply lift_ok_inv in H1 as [-> ->]. apply set_ok_inv in H2. eauto.
Qed.

Lemma ret_ok_inv {A} (a : A) s b s' : (mret a : M A) s = (Ok b, s') -> b = a /\ s' = s.
Proof. unfold mret, M_ret. intros H. by injection H as -> ->. Qed.

(** Splits a successful run of the merge into one hypothesis per step. *)
Ltac peel :=
  repeat match goal with
  | H : (_ ≫= _) _ = (Ok _, _) |- _ =>
      let a := fresh "a" in let s := fresh "s" in let H1 := fresh "Hm" in let H2 := fresh "Hk" in
      apply bind_ok_inv in H as (a & s & H1 & H2); cbv beta in H2
  | H : st_lift _ _ = (Ok _, _) |- _ =>
      let H1 := fresh "Hr" in apply lift_ok_inv in H as [H1 ?]; subst
  | H : st_set _ _ _ = (Ok _, _) |- _ => apply set_ok_inv in H; subst
  | H : st_get _ _ = (Ok _, _) |- _ =>
      let H1 := fresh "Hg" in apply get_ok_inv in H as [H1 ?]; subst
  | H : assign _ _ _ = (Ok _, _) |- _ =>
      let v := fresh "v" in let H1 := fresh "Hr" in apply assign_ok_inv in H as (v & H1 & ?); subst
  | H : mret _ _ = (Ok _, _) |- _ => apply ret_ok_inv in H as [? ?]; subst
  | H : full_rationale _ _ _ _ _ = (Ok _, _) |- _ => unfold full_rationale in H
  | H : merge_fields _ _ = (Ok _, _) |- _ => unfold merge_fields in H
  | H : merge_row _ _ = (Ok _, _) |- _ => unfold merge_row in H
  end.

(** Lookups through a chain of inserts with distinct literal keys. *)
Ltac lk_in H := repeat first [rewrite lookup_insert_eq in H | rewrite lookup_insert_ne in H by discriminate].
Ltac lk := repeat first [rewrite lookup_insert_eq | rewrite lookup_insert_ne by discriminate].

Definition res_opt {A} (r : result A) : option A := match r with Ok a => Some a | Err _ => None end.

Lemma total_ok_inv x v :
  (let* vs := values_of x in let* z := py_sum vs in Ok (JInt z)) = Ok v ->
  exists z, (let* vs := values_of x in py_sum vs) = Ok z /\ v = JInt z.
Proof.
  destruct (values_of x) as [vs|e]; simpl; [|discriminate].
  destruct (py_sum vs) as [z|e]; simpl; intros H; [|discriminate]. injection H as <-. eauto.
Qed.

Lemma merge_row_cells res s u s' : merge_row res s = (Ok u, s') ->
  exists sp cl a b,
    getitem res "sparlo_scores" = Ok sp /\ getitem res "claude_scores" = Ok cl /\
    (let* vs := values_of sp in py_sum vs) = Ok a /\
    (let* vs := values_of cl in py_sum vs) = Ok b /\
    s' !! "sparlo_total" = Some (JInt a) /\ s' !! "claude_total" = Some (JInt b) /\
    s' !! "score_margin" = Some (JInt (a - b)) /\
    Forall (fun k => s' !! ("sparlo_" +:+ k) = res_opt (getitem sp k) /\
                     s' !! ("claude_" +:+ k) = res_opt (getitem cl k)) SCORE_KEYS /\
    s' !! "winner" = res_opt (getitem res "winner").
Proof.
  intros H. peel.
  do 2 match goal with
  | H : (let* vs := values_of _ in _) = Ok _ |- _ => apply total_ok_inv in H as (? & ? & ->)
  end.
  repeat match goal with H : _ !! _ = Some _ |- _ => lk_in H; injection H as <- end.
  match goal with H : (let* _ := py_int _ in _) = Ok _ |- _ => simpl in H; injection H as <- end.
  do 4 eexists. split_and!; try eassumption; [lk; done..| |];
    [repeat constructor; cbn [String.append]|]; lk;
    repeat match goal with H : getitem ?d ?k = Ok _ |- context [getitem ?d ?k] => rewrite H end;
    done.
Qed.

(** ** Sums of integer sub-scores *)

Fixpoint zsum (l : list Z) : Z := match l with [] => 0%Z | z :: l' => (z + zsum l')%Z end.

Definition int_val (v : json) : Z := match v with JInt z => z | _ => 0%Z end.

Definition int_of (o : option json) : Z := match o with Some v => int_val v | None => 0%Z end.

Definition is_int (v : json) : bool := match v with JInt _ => true | _ => false end.

Lemma zsum_perm (l1 l2 : list Z) : l1 ≡ₚ l2 -> zsum l1 = zsum l2.
Proof. induction 1; simpl; lia. Qed.

Lemma py_sum_ints (l : list json) :
  Forall (fun v => is_int v = true) l -> py_sum l = Ok (zsum (map int_val l)).
Proof.
  induction 1 as [|v l Hv _ IH]; [done|].
  destruct v; try discriminate. simpl. by rewrite IH.
Qed.

Lemma assoc_in_nodup k v (kvs : list (string * json)) :
  NoDup (map fst kvs) -> In (k, v) kvs -> assoc k kvs = Some v.
Proof.
  induction kvs as [|[k' v'] kvs IH]; simpl; [done|].
  intros Hnd [Heq|Hin]; inversion Hnd as [|? ? Hk' Hnd']; subst.
  - injection Heq as -> ->. by rewrite String.eqb_refl.
  - destruct (String.eqb_spec k k') as [->|]; [|by apply IH].
    exfalso. apply Hk'. apply list_elem_of_In. apply (in_map fst) in Hin. exact Hin.
Qed.

Lemma SCORE_KEYS_NoDup : NoDup SCORE_KEYS.
Proof. apply (bool_decide_unpack _). vm_compute. reflexivity. Qed.

(** The sum of the values of a score object with exactly the six keys. *)
Lemma zsum_six (kvs : list (string * json)) :
  map fst kvs ≡ₚ SCORE_KEYS ->
  zsum (map int_val (map snd kvs)) =
  zsum (map (fun k => int_of (assoc k kvs)) SCORE_KEYS).
Proof.
  intros Hp.
  assert (Hnd : NoDup (map fst kvs)) by (rewrite Hp; apply SCORE_KEYS_NoDup).
  rewrite <- (zsum_perm _ _ (Permutation_map (fun k => int_of (assoc k kvs)) Hp)).
  rewrite !map_map. f_equal. apply map_ext_in. intros [k v] Hin. simpl.
  by rewrite (assoc_in_nodup k v kvs Hnd Hin).
Qed.

Lemma res_opt_getitem kvs k : res_opt (getitem (JObj kvs) k) = assoc k kvs.
Proof. unfold getitem. by destruct (assoc k kvs). Qed.

(** ** What [run_sparlo] returns and saves *)

Definition report_file (p : string) : string := "reports/" +:+ p +:+ "_sparlo.json".

Definition sparlo_outcome (pid : option string) (evs : list event) (r : result sparlo_out) : Prop :=
  (forall o st t fj, r = Ok (o, st, t, fj) ->
     st = "complete" \/ ((st = "error" \/ st = "timeout") /\ o = "" /\ fj = JObj [])) /\
  (forall f, In (ESave f) evs -> exists p o t fj, pid = Some p /\ f = report_file p /\ r = Ok (o, "complete", t, fj)) /\
  (forall p o t fj, pid = Some p -> r = Ok (o, "complete", t, fj) -> In (ESave (report_file p)) evs).

Definition no_save (evs : list event) : Prop := forall f, ~ In (ESave f) evs.

Lemma no_save_app evs1 evs2 : no_save evs1 -> no_save evs2 -> no_save (app evs1 evs2).
Proof. intros H1 H2 f Hf. apply in_app_or in Hf as [Hf|Hf]; [eapply H1|eapply H2]; eauto. Qed.

Lemma sparlo_outcome_app pid acc evs r :
  no_save acc -> sparlo_outcome pid evs r -> sparlo_outcome pid (app acc evs) r.
Proof.
  intros Ha (H1 & H2 & H3). split_and!; [done| |].
  - intros f Hf. apply in_app_or in Hf as [Hf|Hf]; [by destruct (Ha f)|by apply H2].
  - intros p o t fj Hp Hr. apply in_or_app. right. by eapply H3.
Qed.

Lemma no_save_outcome pid evs e : no_save evs -> sparlo_outcome pid evs (Err e).
Proof. intros Hn. split_and!; [done| |done]. intros f Hf. by destruct (Hn f). Qed.

Lemma no_save_outcome_other pid evs o st t fj :
  no_save evs -> st <> "complete" -> (st = "error" \/ st = "timeout") -> o = "" -> fj = JObj [] ->
  sparlo_outcome pid evs (Ok (o, st, t, fj)).
Proof.
  intros Hn Hst Hst' -> ->. split_and!.
  - intros ? ? ? ? H. injection H as <- <- _ <-. by right.
  - intros f Hf. by destruct (Hn f).
  - intros ? ? ? ? _ H. injection H as _ Hs _ _. congruence.
Qed.

Lemma poll_answer_outcome pid data t :
  match poll_answer pid data t with
  | (evs, Some r) => sparlo_outcome pid evs r
  | (evs, None) => no_save evs
  end.
Proof.
  unfold poll_answer.
  destruct (dict_get data "status" JNull) as [status|e];
  destruct (dict_get data "currentStep" (JStr "unknown")) as [step|e'];
  destruct (dict_get data "phaseProgress" (JInt 0)) as [progress|e''];
  try (apply no_save_outcome; intros f []).
  destruct (is_str status "complete").
  - destruct (dict_get data "reportData" (JObj [])) as [rd|e].
    + destruct pid as [p|]; split_and!.
      * intros ? ? ? ? H. injection H as _ <- _ _. by left.
      * intros f Hf. simpl in Hf. destruct Hf as [Hf|[Hf|[Hf|[]]]]; try discriminate.
        injection Hf as <-. eauto 7.
      * intros p' ? ? ? Hp _. injection Hp as <-. simpl. auto.
      * intros ? ? ? ? H. injection H as _ <- _ _. by left.
      * intros f Hf. simpl in Hf. destruct Hf as [Hf|[]]; discriminate.
      * done.
    + apply no_save_outcome. intros f [Hf|[]]; discriminate.
  - destruct (is_str status "error").
    + apply no_save_outcome_other; auto. intros f [Hf|[]]; discriminate.
    + intros f [Hf|[]]; discriminate.
Qed.

Lemma poll_loop_outcome poll pid : forall m now k acc, budget - now <= m -> no_save acc ->
  sparlo_outcome pid (poll_loop poll pid now k acc).1 (poll_loop poll pid now k acc).2.
Proof.
  induction m as [|m IH]; intros now k acc Hm Ha; rewrite poll_loop_equation;
    destruct (Nat.ltb now budget) eqn:Hlt.
  1,3: apply Nat.ltb_lt in Hlt.
  1: unfold budget in *; lia.
  2,3: apply no_save_outcome_other; auto.
  destruct (poll k) as [d [e|code text body]]; cbn [fst snd].
  - apply no_save_outcome, no_save_app; [done|]. intros f [Hf|[]]; discriminate.
  - destruct (negb (Z.eqb code 200)).
    + apply IH; [unfold poll_interval in *; lia|].
      apply no_save_app; [done|]. intros f [Hf|[Hf|[]]]; discriminate.
    + destruct body as [data|].
      * pose proof (poll_answer_outcome pid data (now + poll_interval + d)) as Ho.
        destruct (poll_answer pid data (now + poll_interval + d)) as [evs [r|]]; cbn [fst snd].
        -- replace (app acc (EPoll (now + poll_interval) :: evs))
             with (app (app acc [EPoll (now + poll_interval)]) evs) by (rewrite <- app_assoc; reflexivity).
           apply sparlo_outcome_app; [|done].
           apply no_save_app; [done|]. intros f [Hf|[]]; discriminate.
        -- apply IH; [unfold poll_interval in *; lia|].
           apply no_save_app; [done|]. intros f [Hf|Hf]; [discriminate|by apply (Ho f)].
      * apply no_save_outcome, no_save_app; [done|]. intros f [Hf|[]]; discriminate.
Qed.

Lemma run_sparlo_outcome api_key pid beh :
  sparlo_outcome pid (run_sparlo api_key pid beh).1 (run_sparlo api_key pid beh).2.
Proof.
  unfold run_sparlo.
  destruct api_key as [[|a s]|];
    try (apply no_save_outcome_other; auto; intros f [Hf|[]]; discriminate).
  destruct (sb_post beh) as [d [e|code text body]]; [apply no_save_outcome; intros f []|].
  destruct (negb (Z.eqb code 200)).
  - apply no_save_outcome_other; auto. intros f [Hf|[]]; discriminate.
  - destruct body as [data|]; [|apply no_save_outcome; intros f []].
    destruct (getitem data "reportId") as [rid|e]; [|apply no_save_outcome; intros f []].
    apply (poll_loop_outcome _ _ budget); [lia|]. intros f [Hf|[]]; discriminate.
Qed.

Lemma run_claude_status cb o st t : run_claude cb = Ok (o, st, t) -> st = "complete" \/ st = "error".
Proof.
  unfold run_claude, try_except.
  destruct (cb_reply cb) as [content|e]; cbn [rbind]; [|intros H; injection H as _ <- _; by right].
  destruct (first_text content); cbn [rbind]; intros H; injection H as _ <- _; [by left|by right].
Qed.

Lemma generate_ok_inv a pid created_at api_key sb cb ledger ledger' :
  generate a pid created_at api_key sb cb ledger = Ok ledger' ->
  exists so co, (run_sparlo api_key (Some pid) sb).2 = Ok so /\ run_claude cb = Ok co /\
    ledger' = app ledger [write_row (gen_row a pid created_at so.1.1.1 so.1.1.2 so.1.2 co.1.1 co.1.2 co.2)].
Proof.
  unfold generate.
  destruct (run_sparlo api_key (Some pid) sb).2 as [[[[so1 so2] so3] so4]|e]; cbn [rbind]; [|discriminate].
  destruct (run_claude cb) as [[[co1 co2] co3]|e]; cbn [rbind]; [|discriminate].
  intros H. injection H as <-. eauto 10.
Qed.

(** ** Well-formed rows and the judging loop *)

(** A stored row with one cell per column. *)
Definition wf_row (r : disk_row) : Prop := length r = length CSV_COLUMNS.

Lemma cell_go_some (ks vs : list string) c :
  length vs = length ks -> In c ks -> exists v, cell_go ks vs c = Some v.
Proof.
  revert vs; induction ks as [|k ks IH]; intros [|v vs] Hl Hin; simpl in *; try done; try lia.
  destruct (String.eqb_spec c k) as [->|Hne]; [eauto|]. apply IH; [lia|].
  destruct Hin as [->|]; [congruence|done].
Qed.

Lemma cell_go_notin (ks vs : list string) c : ~ In c ks -> cell_go ks vs c = None.
Proof.
  revert vs; induction ks as [|k ks IH]; intros [|v vs] Hin; simpl; try done.
  destruct (String.eqb_spec c k) as [->|]; [exfalso; apply Hin; now left|].
  apply IH. intros H. apply Hin. now right.
Qed.

(** [row_meta] reads only columns the judging step does not write. *)
Lemma row_meta_ext (r1 r2 : mem_row) :
  (forall k, is_judging_or_flag k = false -> r1 !! k = r2 !! k) -> row_meta r1 = row_meta r2.
Proof. intros H. unfold row_meta. cbv zeta. rewrite !H by reflexivity. reflexivity. Qed.

Lemma row_meta_read (r : disk_row) : wf_row r -> exists m, row_meta (read_row r) = Ok m.
Proof.
  intros Hwf. unfold row_meta. cbv zeta. rewrite !read_row_lookup. unfold cell.
  destruct (cell_go_some CSV_COLUMNS r "problem_id") as [v1 ->]; [done|vm_compute; tauto|].
  destruct (cell_go_some CSV_COLUMNS r "segment") as [v2 ->]; [done|vm_compute; tauto|].
  destruct (cell_go_some CSV_COLUMNS r "problem_summary") as [v3 ->]; [done|vm_compute; tauto|].
  destruct (cell_go_some CSV_COLUMNS r "prior_art") as [v4 ->]; [done|vm_compute; tauto|].
  destruct (cell_go_some CSV_COLUMNS r "domain_spec") as [v5 ->]; [done|vm_compute; tauto|].
  destruct (cell_go_some CSV_COLUMNS r "contradiction") as [v6 ->]; [done|vm_compute; tauto|].
  destruct (cell_go_some CSV_COLUMNS r "sweetspot_pred") as [v7 ->]; [done|vm_compute; tauto|].
  destruct (cell_go_some CSV_COLUMNS r "expected_grade") as [v8 ->]; [done|vm_compute; tauto|].
  simpl. eauto.
Qed.

Definition meta_ok (heap : list mem_row) : Prop :=
  forall i r, heap !! i = Some r -> exists m, row_meta r = Ok m.

Lemma eval_loop_ok judge (todo : list nat) : forall n heap,
  meta_ok heap -> exists res, eval_loop judge n todo heap = Ok res.
Proof.
  induction todo as [|i todo IH]; intros n heap Hm; simpl; [eauto|].
  destruct (heap !! i) as [row|] eqn:Hrow; [|by apply IH].
  destruct (Hm i row Hrow) as [meta Hmeta]. rewrite Hmeta. cbn [rbind].
  destruct (process_row judge n meta row) as [row' ok] eqn:Ep.
  destruct (IH (S n) (<[i:=row']> heap)) as [res ->]; [|cbn [rbind]; eauto].
  intros j r Hj. destruct (decide (i = j)) as [<-|Hne].
  - rewrite list_lookup_insert_eq in Hj by (eapply lookup_lt_Some; eauto).
    injection Hj as <-. exists meta. rewrite <- Hmeta. apply row_meta_ext.
    by apply (process_row_spec _ _ _ _ _ _ Ep).
  - rewrite list_lookup_insert_ne in Hj by done. eauto.
Qed.

Lemma evaluate_ok judge (ledger : list disk_row) :
  Forall wf_row ledger -> exists tr out, evaluate judge ledger = Ok (tr, out).
Proof.
  intros Hwf. unfold evaluate.
  destruct (to_evaluate (map read_row ledger)) eqn:E; [eauto|]. rewrite <- E.
  destruct (eval_loop_ok judge (to_evaluate (map read_row ledger)) 0 (map read_row ledger))
    as [[tr h] ->]; [|cbn [rbind]; eauto].
  intros i r Hr. rewrite list_lookup_fmap in Hr.
  destruct (ledger !! i) as [d|] eqn:Hd; simpl in Hr; [|discriminate]. injection Hr as <-.
  apply row_meta_read. rewrite Forall_lookup in Hwf. by apply (Hwf i).
Qed.

(** A row in memory agreeing with a stored row on column [c] is written
    back with the same cell there. *)
Lemma cell_write_agree (m : mem_row) (r : disk_row) c :
  wf_row r -> m !! c = read_row r !! c -> cell (write_row m) c = cell r c.
Proof.
  intros Hwf Hc. destruct (in_dec String.string_dec c CSV_COLUMNS) as [Hin|Hin].
  - unfold cell, write_row. rewrite cell_go_map by done. rewrite Hc, read_row_lookup.
    unfold cell. destruct (cell_go_some CSV_COLUMNS r c Hwf Hin) as [v ->]. done.
  - unfold cell. by rewrite !cell_go_notin.
Qed.

Lemma evaluate_rows judge (ledger : list disk_row) tr new :
  evaluate judge ledger = Ok (tr, Some new) ->
  length new = length ledger /\
  forall i r, ledger !! i = Some r -> exists m,
    new !! i = Some (write_row m) /\
    (forall k, is_judging_or_flag k = false -> m !! k = read_row r !! k) /\
    (m !! "evaluated" = read_row r !! "evaluated" \/
     (m !! "evaluated" = Some (JStr "true") /\ eligible_cells r = true)).
Proof.
  intros H. destruct (evaluate_run _ _ _ _ H) as [(_ & _ & [=])|(_ & heap' & Hl & Hout)].
  injection Hout as ->.
  destruct (eval_loop_spec _ _ _ _ _ _ (selected_NoDup ledger) (selected_lt ledger) Hl)
    as (Hfst & Hlen & Hfr & Htr).
  split; [by rewrite length_map, Hlen, length_map|].
  intros i r Hr.
  destruct (in_dec Nat.eq_dec i (selected ledger)) as [Hin|Hin].
  - rewrite <- Hfst in Hin. apply in_map_iff in Hin as ([j b] & <- & Hin). cbn [fst] in *.
    destruct (Htr j b Hin) as (r0 & r' & Hr0 & Hr' & Hk & Hev).
    rewrite list_lookup_fmap, Hr in Hr0. injection Hr0 as <-.
    exists r'. rewrite list_lookup_fmap, Hr'. split_and!; [done|done|].
    destruct b; [right|left; done]. split; [done|].
    apply (in_map fst) in Hin. rewrite Hfst in Hin. cbn [fst] in Hin.
    apply selected_spec in Hin as (r1 & Hr1 & He). congruence.
  - exists (read_row r). rewrite list_lookup_fmap, Hfr by done.
    rewrite list_lookup_fmap, Hr. split_and!; [done|done|by left].
Qed.

(** ** Ledgers the commands produce *)

(** The ledgers [init_csv], [generate] and [evaluate] lead to, starting
    from a missing results.csv (read as no rows). *)
Inductive reachable : list disk_row -> Prop :=
| reach_init : reachable []
| reach_generate a pid created_at api_key sb cb ledger ledger' :
    reachable ledger -> generate a pid created_at api_key sb cb ledger = Ok ledger' -> reachable ledger'
| reach_evaluate judge ledger tr ledger' :
    reachable ledger -> evaluate judge ledger = Ok (tr, Some ledger') -> reachable ledger'.

Definition ledger_ok (r : disk_row) : Prop :=
  wf_row r /\
  (opt_is (cell r "evaluated") "true" = true ->
   opt_is (cell r "sparlo_status") "complete" = true /\ opt_is (cell r "claude_status") "complete" = true).

Lemma is_str_read (r : disk_row) c s : is_str_opt (read_row r !! c) s = opt_is (cell r c) s.
Proof. rewrite read_row_lookup. by destruct (cell r c). Qed.

Lemma generate_ledger_ok a pid created_at api_key sb cb ledger ledger' :
  generate a pid created_at api_key sb cb ledger = Ok ledger' ->
  Forall ledger_ok ledger -> Forall ledger_ok ledger'.
Proof.
  intros (so & co & _ & _ & ->)%generate_ok_inv Hl.
  apply Forall_app. split; [done|]. constructor; [|constructor].
  split; [apply length_write_row|].
  destruct so as [[[? ?] ?] ?], co as [[? ?] ?]. vm_compute. discriminate.
Qed.

Lemma evaluate_ledger_ok judge ledger tr ledger' :
  evaluate judge ledger = Ok (tr, Some ledger') ->
  Forall ledger_ok ledger -> Forall ledger_ok ledger'.
Proof.
  intros H Hl. destruct (evaluate_rows _ _ _ _ H) as [Hlen Hrows].
  apply Forall_lookup. intros i r' Hr'.
  destruct (lookup_lt_is_Some_2 ledger i) as [r Hr].
  { rewrite <- Hlen. by eapply lookup_lt_Some. }
  rewrite Forall_lookup in Hl. destruct (Hl i r Hr) as [Hwf Hev].
  destruct (Hrows i r Hr) as (m & Hn & Hk & Hm). rewrite Hn in Hr'. injection Hr' as <-.
  split; [apply length_write_row|].
  rewrite !(cell_write_agree m r "sparlo_status"), !(cell_write_agree m r "claude_status")
    by (done || by apply Hk).
  destruct Hm as [Hm|[Hm He]].
  - rewrite (cell_write_agree m r "evaluated" Hwf Hm). exact Hev.
  - intros _. unfold eligible_cells in He. apply andb_true_iff in He as [He Hc].
    apply andb_true_iff in He as [_ Hs]. split; assumption.
Qed.

Lemma reachable_ok ledger : reachable ledger -> Forall ledger_ok ledger.
Proof.
  induction 1.
  - constructor.
  - by eapply generate_ledger_ok.
  - by eapply evaluate_ledger_ok.
Qed.

Lemma filter_length_split {A} (f g : A -> bool) (l : list A) :
  length (List.filter f l) =
  length (List.filter (fun x => f x && g x) l) + length (List.filter (fun x => f x && negb (g x)) l).
Proof. induction l as [|x l IH]; simpl; [done|]. destruct (f x), (g x); simpl; lia. Qed.

Lemma filter_length_imp {A} (f g : A -> bool) (l : list A) :
  (forall x, In x l -> g x = true -> f x = true) ->
  length (List.filter g l) = length (List.filter (fun x => f x && g x) l).
Proof.
  induction l as [|x l IH]; intros H; [done|].
  assert (IH' := IH (fun y Hy => H y (or_intror Hy))). cbn [List.filter].
  destruct (g x) eqn:Eg.
  - rewrite (H x (or_introl eq_refl) Eg). cbn [andb length]. by rewrite IH'.
  - rewrite andb_false_r. exact IH'.
Qed.

Lemma ledger_ok_rows ledger :
  Forall ledger_ok ledger ->
  forall x, In x (map read_row ledger) -> is_evaluated x = true -> is_complete x = true.
Proof.
  intros Hl x Hx. apply in_map_iff in Hx as (r & <- & Hr).
  rewrite List.Forall_forall in Hl. destruct (Hl r Hr) as [_ Hok].
  unfold is_evaluated, is_complete. rewrite !is_str_read. intros Hev.
  destruct (Hok Hev) as [-> ->]. done.
Qed.

Lemma pair_fst_eq {A B} (p : A * B) a : p.1 = a -> p = (a, p.2).
Proof. destruct p as [x y]. cbn [fst snd]. intros ->. reflexivity. Qed.

(** ** Properties of the merge *)

(** X2: a successful merge sets every judging column and [evaluated] from
    the verdict alone: two rows merged with the same verdict agree on all
    of them afterwards, so no value from an earlier judgment survives. *)
Theorem merge_row_overwrites res s1 s2 u1 u2 s1' s2' :
  merge_row res s1 = (Ok u1, s1') -> merge_row res s2 = (Ok u2, s2') ->
  forall c, is_judging_or_flag c = true -> s1' !! c = s2' !! c.
Proof.
  intros H1 H2 c Hc. peel.
  repeat match goal with
  | H : (let* vs := values_of _ in _) = Ok _ |- _ => apply total_ok_inv in H as (? & ? & ->)
  end.
  repeat match goal with H : _ !! _ = Some _ |- _ => lk_in H; injection H as <- end.
  repeat match goal with
  | H : (let* _ := py_int _ in _) = Ok _ |- _ => simpl in H; injection H as <-
  | H : py_int (JInt _) = Ok _ |- _ => simpl in H; injection H as <-
  end.
  unfold is_judging_or_flag, is_judging in Hc.
  apply orb_true_iff in Hc as [Hc|Hc].
  - apply existsb_exists in Hc as (kx & Hin & Hx). apply String.eqb_eq in Hx. subst kx.
    simpl in Hin. repeat (destruct Hin as [<-|Hin]; [lk; first [congruence | repeat f_equal; try congruence;
      match goal with |- (if truthy ?x then _ else _) = (if truthy ?y then _ else _) =>
        replace y with x by congruence; reflexivity end]|]). destruct Hin.
  - apply String.eqb_eq in Hc. subst c. lk. congruence.
Qed.


(** X4: when both score objects have exactly the six sub-score keys with
    integer values, a successful merge stores as each total the sum of
    the six sub-scores it stored, and as margin the difference of these
    sums. *)
Theorem merge_row_six_subscores (res : json) (sk ck : list (string * json)) s u s' :
  getitem res "sparlo_scores" = Ok (JObj sk) ->
  getitem res "claude_scores" = Ok (JObj ck) ->
  map fst sk ≡ₚ SCORE_KEYS -> map fst ck ≡ₚ SCORE_KEYS ->
  Forall (fun v => is_int v = true) (map snd sk) ->
  Forall (fun v => is_int v = true) (map snd ck) ->
  merge_row res s = (Ok u, s') ->
  let stotal := zsum (map (fun k => int_of (s' !! ("sparlo_" +:+ k))) SCORE_KEYS) in
  let ctotal := zsum (map (fun k => int_of (s' !! ("claude_" +:+ k))) SCORE_KEYS) in
  s' !! "sparlo_total" = Some (JInt stotal) /\
  s' !! "claude_total" = Some (JInt ctotal) /\
  s' !! "score_margin" = Some (JInt (stotal - ctotal)).
Proof.
  intros Hs Hc Hps Hpc His Hic H.
  apply merge_row_cells in H as (sp & cl & a & b & Hs' & Hc' & Ha & Hb & Hst & Hct & Hm & Hk & _).
  rewrite Hs in Hs'. injection Hs' as <-. rewrite Hc in Hc'. injection Hc' as <-.
  simpl in Ha, Hb. rewrite py_sum_ints in Ha by done. rewrite py_sum_ints in Hb by done.
  injection Ha as <-. injection Hb as <-.
  rewrite (zsum_six sk Hps), (zsum_six ck Hpc) in *.
  assert (Es : map (fun k => int_of (assoc k sk)) SCORE_KEYS =
               map (fun k => int_of (s' !! ("sparlo_" +:+ k))) SCORE_KEYS).
  { apply map_ext_in. intros k Hin. destruct (proj1 (List.Forall_forall _ _) Hk k Hin) as [E _].
    by rewrite E, res_opt_getitem. }
  assert (Ec : map (fun k => int_of (assoc k ck)) SCORE_KEYS =
               map (fun k => int_of (s' !! ("claude_" +:+ k))) SCORE_KEYS).
  { apply map_ext_in. intros k Hin. destruct (proj1 (List.Forall_forall _ _) Hk k Hin) as [_ E].
    by rewrite E, res_opt_getitem. }
  cbv zeta. rewrite <- Es, <- Ec. done.
Qed.


(** ** Properties of [evaluate] and [status] *)

(** X5: on a ledger whose rows all have one cell per column, [evaluate]
    never raises, whatever the judge does: judge failures and malformed
    verdicts are caught row by row. *)
Theorem evaluate_never_raises judge (ledger : list disk_row) :
  Forall wf_row ledger -> exists tr out, evaluate judge ledger = Ok (tr, out).
Proof. apply evaluate_ok. Qed.

(** X6: when [evaluate] rewrites a well-formed ledger, it keeps the
    number of rows, writes one cell per column in each, and leaves every
    cell outside the judging columns and [evaluated] as it was. *)
Theorem evaluate_keeps_data judge (ledger : list disk_row) tr new :
  evaluate judge ledger = Ok (tr, Some new) ->
  Forall wf_row ledger ->
  length new = length ledger /\
  forall i r, ledger !! i = Some r -> exists r',
    new !! i = Some r' /\ wf_row r' /\
    forall c, is_judging_or_flag c = false -> cell r' c = cell r c.
Proof.
  intros H Hwf. destruct (evaluate_rows _ _ _ _ H) as [Hlen Hrows]. split; [done|].
  intros i r Hr. destruct (Hrows i r Hr) as (m & Hn & Hk & _).
  exists (write_row m). split_and!; [done|apply length_write_row|].
  intros c Hc. apply cell_write_agree; [|by apply Hk].
  rewrite Forall_lookup in Hwf. by apply (Hwf i).
Qed.

(** X7: every ledger the commands produce from a fresh results.csv has
    one cell per column in each row, and a row is marked evaluated only
    if both its backend statuses are 'complete'. *)
Theorem reachable_ledger_ok (ledger : list disk_row) :
  reachable ledger -> Forall ledger_ok ledger.
Proof. apply reachable_ok. Qed.

(** X8: on every ledger the commands produce, the "Pending evaluation"
    count of [status] is the number of rows with both statuses 'complete'
    that are not evaluated; in particular it is never negative. *)
Theorem status_pending (ledger : list disk_row) :
  reachable ledger ->
  In ("Pending evaluation: " +:+
        pretty (Z.of_nat (length (List.filter (fun r => is_complete r && negb (is_evaluated r))
                                              (map read_row ledger)))))
     (status_lines (Some ledger)).
Proof.
  intros Hr. pose proof (ledger_ok_rows ledger (reachable_ok ledger Hr)) as Himp.
  cbn [status_lines]. apply in_or_app. left. right. right. right. left.
  rewrite (filter_length_split is_complete is_evaluated).
  rewrite (filter_length_imp is_complete is_evaluated) by exact Himp.
  do 2 f_equal. lia.
Qed.

(** X9: run through the CLI, [status] never reports a missing
    results.csv, since the group callback creates it first; in a fresh
    directory it reports zero problems and no results line. *)
Theorem cli_status_never_missing (file : option (list disk_row)) :
  ~ In NO_RESULTS (cli_status file) /\
  cli_status None = ["Total problems: 0"; "Complete (both APIs): 0"; "Evaluated: 0"; "Pending evaluation: 0"].
Proof.
  split; [|vm_compute; reflexivity].
  assert (Hs : forall l, ~ In NO_RESULTS (status_lines (Some l))).
  2: unfold cli_status, init_csv; destruct file; apply Hs.
  intros l H. cbn [status_lines] in H. unfold NO_RESULTS in H. apply in_app_or in H as [H|H].
  - destruct H as [H|[H|[H|[H|[]]]]]; cbn [String.append] in H; discriminate.
  - destruct (Nat.ltb 0 _); [|destruct H]. destruct H as [H|[]].
    unfold nl in H. cbn [String.append] in H. discriminate.
Qed.

(** ** Properties of the backend calls and [generate] *)

(** X10: when [run_sparlo] returns, its status is 'complete', 'error' or
    'timeout'; with 'error' or 'timeout' the output is empty and the full
    JSON is an empty dict. *)
Theorem run_sparlo_status api_key pid beh o st t fj :
  (run_sparlo api_key pid beh).2 = Ok (o, st, t, fj) ->
  st = "complete" \/ ((st = "error" \/ st = "timeout") /\ o = "" /\ fj = JObj []).
Proof. apply (run_sparlo_outcome api_key pid beh). Qed.

(** X11: [run_sparlo] saves a report file only for a problem id [p] and
    a 'complete' result, and the file is reports/<p>_sparlo.json; with a
    non-empty id and a 'complete' result it does save that file. *)
Theorem run_sparlo_saves_report api_key pid beh :
  (forall f, In (ESave f) (run_sparlo api_key pid beh).1 ->
     exists p o t fj, pid = Some p /\ f = report_file p /\
       (run_sparlo api_key pid beh).2 = Ok (o, "complete", t, fj)) /\
  (forall p o t fj, pid = Some p -> p <> "" ->
     (run_sparlo api_key pid beh).2 = Ok (o, "complete", t, fj) ->
     In (ESave (report_file p)) (run_sparlo api_key pid beh).1).
Proof.
  destruct (run_sparlo_outcome api_key pid beh) as (_ & H2 & H3).
  split; [exact H2|]. intros p o t fj Hp _. by apply H3.
Qed.

(** X12: the row [generate] appends has one cell per column, a Sparlo
    status among 'complete', 'error' and 'timeout' (with an empty Sparlo
    output unless 'complete'), and a Claude status 'complete' or 'error'. *)
Theorem generate_row_status a pid created_at api_key sb cb (ledger ledger' : list disk_row) :
  generate a pid created_at api_key sb cb ledger = Ok ledger' ->
  exists row, ledger' = app ledger [row] /\ wf_row row /\
    (cell row "sparlo_status" = Some "complete" \/
     ((cell row "sparlo_status" = Some "error" \/ cell row "sparlo_status" = Some "timeout") /\
      cell row "sparlo_output" = Some "")) /\
    (cell row "claude_status" = Some "complete" \/ cell row "claude_status" = Some "error").
Proof.
  intros (so & co & Hs & Hc & ->)%generate_ok_inv.
  destruct so as [[[o st] t] fj], co as [[co_out co_st] co_t]. cbn [fst snd].
  pose proof (proj1 (run_sparlo_outcome api_key (Some pid) sb) o st t fj Hs) as Hst.
  pose proof (run_claude_status cb co_out co_st co_t Hc) as Hct.
  eexists. split; [reflexivity|]. split; [apply length_write_row|].
  set (row := write_row (gen_row a pid created_at o st t co_out co_st co_t)).
  assert (E1 : cell row "sparlo_status" = Some st) by (vm_compute; reflexivity).
  assert (E2 : cell row "sparlo_output" = Some o) by (vm_compute; reflexivity).
  assert (E3 : cell row "claude_status" = Some co_st) by (vm_compute; reflexivity).
  rewrite E1, E2, E3. split.
  - destruct Hst as [->|([-> | ->] & -> & _)]; [by left|right; split; [by left|done]|right; split; [by right|done]].
  - destruct Hct as [->| ->]; [by left|by right].
Qed.

(** ** Concrete runs for the further properties *)

(** The Sparlo backend creates the report at once and answers the first
    status request with the finished report. *)
Definition done_beh : sparlo_behaviour := {|
  sb_post := (0, HttpResp 200 "{}" (Some (JObj [("reportId", JStr "r2")])));
  sb_poll := fun _ => (2, HttpResp 200 "{}" (Some (JObj [("status", JStr "complete");
                        ("reportData", JObj [("report", JStr "sparlo report")])])))
|}.

(** A second verdict with other scores, merged over a fresh row and over
    a row already judged with [verdict]. *)
Definition low_verdict : list (string * json) := verdict_with (scores 1 2 3 4 5 6).

Definition merge_low_complete : (result unit * mem_row) := merge_row (JObj low_verdict) (read_row complete_row).

Definition merge_low_evaluated : (result unit * mem_row) := merge_row (JObj low_verdict) (read_row evaluated_row).

Definition merge_complete : (result unit * mem_row) := merge_row (JObj verdict) (read_row complete_row).

(** A fresh ledger after [generate], [evaluate] and [generate] again. *)
Definition gen_ledger1 : list disk_row :=
  Eval vm_compute in
    match generate sample_args "p1" "2026-01-05T10:00:00" (Some "key") done_beh claude_ok [] with
    | Ok l => l | Err _ => [] end.

Definition eval_trace2 : list (nat * bool) :=
  Eval vm_compute in
    match evaluate (judge_answers verdict) gen_ledger1 with Ok (tr, _) => tr | Err _ => [] end.

Definition eval_ledger2 : list disk_row :=
  Eval vm_compute in
    match evaluate (judge_answers verdict) gen_ledger1 with Ok (_, Some l) => l | _ => [] end.

Definition gen_ledger3 : list disk_row :=
  Eval vm_compute in
    match generate sample_args "p2" "2026-01-05T11:00:00" (Some "key") done_beh claude_ok eval_ledger2 with
    | Ok l => l | Err _ => [] end.

Ltac reach_gen_ledger3 :=
  eapply (reach_generate sample_args "p2" "2026-01-05T11:00:00" (Some "key") done_beh claude_ok eval_ledger2);
  [eapply (reach_evaluate (judge_answers verdict) gen_ledger1 eval_trace2);
   [eapply (reach_generate sample_args "p1" "2026-01-05T10:00:00" (Some "key") done_beh claude_ok []);
    [exact reach_init | vm_compute; reflexivity] | vm_compute; reflexivity] | vm_compute; reflexivity].



(** Witnesses *)

Lemma merge_row_overwrites_witness :
  merge_low_complete.1 = Ok tt /\ merge_low_evaluated.1 = Ok tt /\
  read_row evaluated_row !! "sparlo_total" <> read_row complete_row !! "sparlo_total" /\
  merge_low_complete.2 !! "sparlo_total" = merge_low_evaluated.2 !! "sparlo_total".
Proof.
  split; [vm_compute; reflexivity|]. split; [vm_compute; reflexivity|].
  split; [vm_compute; intros H; discriminate H|].
  apply (merge_row_overwrites (JObj low_verdict) (read_row complete_row) (read_row evaluated_row)
           tt tt merge_low_complete.2 merge_low_evaluated.2);
    [apply pair_fst_eq; vm_compute; reflexivity | apply pair_fst_eq; vm_compute; reflexivity |
     reflexivity].
Defined.


Lemma merge_row_six_subscores_witness :
  let stotal := zsum (map (fun k => int_of (merge_complete.2 !! ("sparlo_" +:+ k))) SCORE_KEYS) in
  let ctotal := zsum (map (fun k => int_of (merge_complete.2 !! ("claude_" +:+ k))) SCORE_KEYS) in
  merge_complete.2 !! "sparlo_total" = Some (JInt stotal) /\
  merge_complete.2 !! "claude_total" = Some (JInt ctotal) /\
  merge_complete.2 !! "score_margin" = Some (JInt (stotal - ctotal)).
Proof.
  apply (merge_row_six_subscores (JObj verdict) (scores 6 7 8 7 9 8) (scores 5 5 6 5 5 6)
           (read_row complete_row) tt merge_complete.2);
    [reflexivity | reflexivity | reflexivity | reflexivity | repeat constructor | repeat constructor |
     apply pair_fst_eq; vm_compute; reflexivity].
Defined.


Lemma evaluate_never_raises_witness :
  exists tr out, evaluate judge_down two_rows = Ok (tr, out).
Proof.
  apply (evaluate_never_raises judge_down two_rows). unfold wf_row. repeat constructor.
Defined.

Lemma evaluate_keeps_data_witness :
  length two_rows_after = length two_rows /\
  forall i r, two_rows !! i = Some r -> exists r',
    two_rows_after !! i = Some r' /\ wf_row r' /\
    forall c, is_judging_or_flag c = false -> cell r' c = cell r c.
Proof.
  apply (evaluate_keeps_data (judge_answers verdict) two_rows two_rows_trace two_rows_after);
    [vm_compute; reflexivity | unfold wf_row; repeat constructor].
Defined.

Lemma reachable_ledger_ok_witness : Forall ledger_ok gen_ledger3.
Proof. apply (reachable_ledger_ok gen_ledger3). reach_gen_ledger3. Defined.

Lemma status_pending_witness :
  In ("Pending evaluation: " +:+
        pretty (Z.of_nat (length (List.filter (fun r => is_complete r && negb (is_evaluated r))
                                              (map read_row gen_ledger3)))))
     (status_lines (Some gen_ledger3)) /\
  status_lines (Some gen_ledger3) =
    ["Total problems: 2"; "Complete (both APIs): 2"; "Evaluated: 1"; "Pending evaluation: 1";
     nl +:+ "Results: Sparlo 0 | Claude 1 | Ties 0"].
Proof.
  split; [apply (status_pending gen_ledger3); reach_gen_ledger3 | vm_compute; reflexivity].
Defined.

Lemma run_sparlo_status_witness :
  (run_sparlo (Some "key") (Some "p1") slow_beh).2 = Ok ("", "timeout", 2108, JObj []) /\
  ("timeout" = "complete" \/ (("timeout" = "error" \/ "timeout" = "timeout") /\ "" = "" /\ JObj [] = JObj [])).
Proof.
  assert (H : (run_sparlo (Some "key") (Some "p1") slow_beh).2 = Ok ("", "timeout", 2108, JObj []))
    by (vm_compute; reflexivity).
  split; [exact H | exact (run_sparlo_status _ _ _ _ _ _ _ H)].
Defined.

Lemma run_sparlo_saves_report_witness :
  (run_sparlo (Some "key") (Some "p1") done_beh).2 =
    Ok ("sparlo report", "complete", 32, JObj [("report", JStr "sparlo report")]) /\
  In (ESave (report_file "p1")) (run_sparlo (Some "key") (Some "p1") done_beh).1.
Proof.
  split; [vm_compute; reflexivity|].
  apply (proj2 (run_sparlo_saves_report (Some "key") (Some "p1") done_beh) "p1" "sparlo report" 32
           (JObj [("report", JStr "sparlo report")]));
    [reflexivity | discriminate | vm_compute; reflexivity].
Defined.

Lemma generate_row_status_witness :
  exists row, gen_ledger1 = app [] [row] /\ wf_row row /\
    (cell row "sparlo_status" = Some "complete" \/
     ((cell row "sparlo_status" = Some "error" \/ cell row "sparlo_status" = Some "timeout") /\
      cell row "sparlo_output" = Some "")) /\
    (cell row "claude_status" = Some "complete" \/ cell row "claude_status" = Some "error").
Proof.
  apply (generate_row_status sample_args "p1" "2026-01-05T10:00:00" (Some "key") done_beh claude_ok []
           gen_ledger1).
  vm_compute. reflexivity.
Defined.
